(** * Mercurial: SSH peer transport, command batching and command state

    A shallow embedding of
    - the argument escaping of the batching demo (tests/test-batching.py),
    - the SSH peer: side-channel forwarding, handshake, framing and
      pipe cleanup (mercurial/sshpeer.py),
    - the command state store and the registry of unfinished operations
      (mercurial/state.py),
    followed by the properties established about them.

    Byte strings (Python 2 [str]) are [string]s, i.e. sequences of 8-bit
    [ascii] characters.  File objects are records holding the bytes still
    to be read, the bytes written, a [closed] flag and the log of the
    method calls they received. *)

From Stdlib Require Import ZArith Lia List Bool Ascii String.
From Stdlib Require Import DecimalString DecimalZ.
From stdpp Require Import gmap strings list fin_maps.

Open Scope string_scope.

#[local] Arguments String.append !s1 s2 : simpl nomatch.

(* ===================================================================== *)
(** * Part I: definitions                                                 *)
(* ===================================================================== *)

(** ** Python byte-string primitives *)

Module PyStr.

Definition NL : ascii := "010"%char.
Definition CR : ascii := "013"%char.
Definition nl : string := String NL "".

(** Truth value of a byte string: non-empty. *)
Definition truthy (s : string) : bool :=
  match s with
  | "" => false
  | String _ _ => true
  end.

(** [s.startswith(p)] *)
Definition startswith (s p : string) : bool := String.prefix p s.

(** [s[n:]] *)
Fixpoint sdrop (n : nat) (s : string) : string :=
  match n, s with
  | O, _ => s
  | S _, "" => ""
  | S k, String _ r => sdrop k r
  end.

(** [s[:n]] *)
Fixpoint stake (n : nat) (s : string) : string :=
  match n, s with
  | O, _ => ""
  | S _, "" => ""
  | S k, String c r => String c (stake k r)
  end.

(** [s[:-1]] *)
Fixpoint butlast (s : string) : string :=
  match s with
  | "" => ""
  | String c r =>
      match r with
      | "" => ""
      | String _ _ => String c (butlast r)
      end
  end.

(** [''.join(l)] *)
Fixpoint join (l : list string) : string :=
  match l with
  | [] => ""
  | s :: r => s +:+ join r
  end.

(** [s.replace(old, new)] for a non-empty [old]: scan from the left; where
    [old] occurs emit [new] and resume after the occurrence ([skip] counts
    the characters of the occurrence still to be jumped over). *)
Fixpoint replace_from (old new : string) (skip : nat) (s : string) : string :=
  match s with
  | "" => ""
  | String c r =>
      match skip with
      | S k => replace_from old new k r
      | O =>
          if String.prefix old (String c r)
          then new +:+ replace_from old new (String.length old - 1) r
          else String c (replace_from old new 0 r)
      end
  end.

(** With an empty [old], Python inserts [new] before every character and
    at the end. *)
Fixpoint interleave (new s : string) : string :=
  match s with
  | "" => new
  | String c r => new +:+ String c (interleave new r)
  end.

Definition replace (old new s : string) : string :=
  match old with
  | "" => interleave new s
  | String _ _ => replace_from old new 0 s
  end.

(** [s.split(sep)] for a one-character separator. *)
Fixpoint split_char (sep : ascii) (s : string) : list string :=
  match s with
  | "" => [""]
  | String c r =>
      if Ascii.eqb c sep then "" :: split_char sep r
      else match split_char sep r with
           | h :: t => String c h :: t
           | [] => [String c ""]
           end
  end.

(** [bytes.isspace] on one character: space, \t, \n, \v, \f, \r. *)
Definition isspace (c : ascii) : bool :=
  let n := nat_of_ascii c in
  Nat.eqb n 32 || (Nat.leb 9 n && Nat.leb n 13).

(** [s.split()]: the maximal runs of non-whitespace characters. *)
Fixpoint split_ws (s : string) : list string :=
  match s with
  | "" => []
  | String c r =>
      if isspace c then split_ws r
      else match r with
           | "" => [String c ""]
           | String d _ =>
               if isspace d then String c "" :: split_ws r
               else match split_ws r with
                    | h :: t => String c h :: t
                    | [] => [String c ""]
                    end
           end
  end.

(** [s.splitlines()] on a byte string: lines end at \n, \r or \r\n; the
    terminators are dropped and no empty last line is produced. *)
Fixpoint splitlines (s : string) : list string :=
  match s with
  | "" => []
  | String c r =>
      if Ascii.eqb c NL then "" :: splitlines r
      else if Ascii.eqb c CR then
        match r with
        | "" => [""]
        | String d r' =>
            if Ascii.eqb d NL then "" :: splitlines r' else "" :: splitlines r
        end
      else match splitlines r with
           | h :: t => String c h :: t
           | [] => [String c ""]
           end
  end.

(** The first line of a buffer, newline included, and what follows it. *)
Fixpoint cutline (s : string) : string * string :=
  match s with
  | "" => ("", "")
  | String c r =>
      if Ascii.eqb c NL then (String c "", r)
      else let (l, rest) := cutline r in (String c l, rest)
  end.

(** [s.lstrip()], [s.rstrip()], [s.strip()] *)
Fixpoint lstrip (s : string) : string :=
  match s with
  | "" => ""
  | String c r => if isspace c then lstrip r else s
  end.

Fixpoint rstrip (s : string) : string :=
  match s with
  | "" => ""
  | String c r =>
      match rstrip r with
      | "" => if isspace c then "" else String c ""
      | String _ _ as r' => String c r'
      end
  end.

Definition strip (s : string) : string := rstrip (lstrip s).

(** Whether every character satisfies [P]. *)
Fixpoint all_chars (P : ascii -> bool) (s : string) : bool :=
  match s with
  | "" => true
  | String c r => P c && all_chars P r
  end.

Definition is_digit (c : ascii) : bool :=
  let n := nat_of_ascii c in Nat.leb 48 n && Nat.leb n 57.

Definition not_nl (c : ascii) : bool := negb (Ascii.eqb c NL).

(** ['%d' % z] *)
Definition fmt_d (z : Z) : string := NilEmpty.string_of_int (Z.to_int z).

(** [int(s)] on a byte string: surrounding whitespace is ignored, then an
    optional sign and at least one decimal digit are required.  [None]
    stands for [ValueError]. *)
Definition parse_digits (s : string) : option Z :=
  match s with
  | "" => None
  | String _ _ =>
      match NilEmpty.uint_of_string s with
      | Some d => Some (Z.of_uint d)
      | None => None
      end
  end.

Definition pyint (s : string) : option Z :=
  match strip s with
  | "" => None
  | String c r as t =>
      if Ascii.eqb c "-" then option_map Z.opp (parse_digits r)
      else if Ascii.eqb c "+" then parse_digits r
      else parse_digits t
  end.

End PyStr.

(** ** Batching: escaping of argument values (tests/test-batching.py) *)

Module Batching.
Import PyStr.

Definition escapearg (plain : string) : string :=
  replace "=" ":="
    (replace ";" ":;"
       (replace "," ":,"
          (replace ":" "::" plain))).

Definition unescapearg (escaped : string) : string :=
  replace "::" ":"
    (replace ":," ","
       (replace ":;" ";"
          (replace ":=" "=" escaped))).

(** The escaped form described character by character, used to reason
    about the two functions: a colon is doubled, a character of the
    special set [sp] gets a colon in front. *)
Definition enc (sp : ascii -> bool) (c : ascii) : string :=
  if Ascii.eqb c ":" then "::"
  else if sp c then String ":" (String c "")
  else String c "".

Fixpoint encode (sp : ascii -> bool) (s : string) : string :=
  match s with
  | "" => ""
  | String c r => enc sp c +:+ encode sp r
  end.

Definition no_special : ascii -> bool := fun _ => false.
Definition with_special (sp : ascii -> bool) (a : ascii) : ascii -> bool :=
  fun c => sp c || Ascii.eqb c a.

Definition sp1 := with_special no_special ",".
Definition sp2 := with_special sp1 ";".
Definition sp3 := with_special sp2 "=".

(** The separators of the batch syntax, and the characters that
    [escapearg] changes. *)
Definition is_sep (c : ascii) : bool :=
  Ascii.eqb c "," || Ascii.eqb c ";" || Ascii.eqb c "=".

Definition is_special (c : ascii) : bool := Ascii.eqb c ":" || is_sep c.

Fixpoint count_chars (P : ascii -> bool) (s : string) : nat :=
  match s with
  | "" => 0
  | String c r => (if P c then 1 else 0) + count_chars P r
  end.

(** [chr(n)]: [None] stands for the ValueError outside range(256). *)
Definition chr (n : Z) : option ascii :=
  if (0 <=? n)%Z && (n <? 256)%Z then Some (ascii_of_N (Z.to_N n)) else None.

(** [ord(c)] *)
Definition ord (c : ascii) : Z := Z.of_N (N_of_ascii c).

(** [''.join(f(c) for c in s)], failing where [f] first fails. *)
Fixpoint join_chars (f : ascii -> option ascii) (s : string) : option string :=
  match s with
  | "" => Some ""
  | String c r =>
      match f c with
      | None => None
      | Some c' =>
          match join_chars f r with
          | None => None
          | Some r' => Some (String c' r')
          end
      end
  end.

Definition mangle (s : string) : option string :=
  join_chars (fun c => chr (ord c + 1)) s.

Definition unmangle (s : string) : option string :=
  join_chars (fun c => chr (ord c - 1)) s.

End Batching.

(** ** The batch request of the batching demo (tests/test-batching.py)

    The client ([remotething._submitbatch]) writes the calls of a batch as
    [name:arg=value,arg=value;name:...] with the values escaped; the
    server ([server.batch]) splits this again, calls each method and
    answers with the escaped results joined by semicolons. *)

Module BatchWire.
Import PyStr Batching.

Inductive exn : Type := ValueError | TypeError | AttributeError.

Inductive res (A : Type) : Type :=
| Ok (a : A)
| Err (e : exn).
Arguments Ok {A} a.
Arguments Err {A} e.

(** [sep.join(l)] *)
Fixpoint join_sep (sep : string) (l : list string) : string :=
  match l with
  | [] => ""
  | s :: r =>
      match r with
      | [] => s
      | _ :: _ => s +:+ sep +:+ join_sep sep r
      end
  end.

(** [a, b = s.split(sep, 1)] for a one-character separator: the pieces
    around the first separator; [None] stands for the ValueError of the
    unpacking when there is no separator. *)
Fixpoint split_first (sep : ascii) (s : string) : option (string * string) :=
  match s with
  | "" => None
  | String c r =>
      if Ascii.eqb c sep then Some ("", r)
      else match split_first sep r with
           | Some (a, b) => Some (String c a, b)
           | None => None
           end
  end.

Section Server.

(** The lookup [getattr(self, name)] and the call of what it finds with
    the keyword arguments [vals], whatever the methods are. *)
Variable call : string -> gmap string string -> res string.

(** The loop over [args.split(',')], filling [vals]. *)
Fixpoint batch_args (pieces : list string) (vals : gmap string string)
  : res (gmap string string) :=
  match pieces with
  | [] => Ok vals
  | a :: r =>
      if truthy a then
        match split_char "=" a with
        | [n; v] => batch_args r (<[n := unescapearg v]> vals)
        | _ => Err ValueError
        end
      else batch_args r vals
  end.

(** The loop over [cmds.split(';')], appending to [res]. *)
Fixpoint batch_pairs (pairs : list string) (results : list string)
  : res (list string) :=
  match pairs with
  | [] => Ok results
  | pr :: r =>
      match split_first ":" pr with
      | None => Err ValueError
      | Some (name, args) =>
          match batch_args (split_char "," args) ∅ with
          | Err e => Err e
          | Ok vals =>
              match call name vals with
              | Err e => Err e
              | Ok out => batch_pairs r (results ++ [escapearg out])
              end
          end
      end
  end.

Definition batch (cmds : string) : res string :=
  match batch_pairs (split_char ";" cmds) [] with
  | Ok results => Ok (join_sep ";" results)
  | Err e => Err e
  end.

End Server.

(** The request that [_submitbatch] builds from the calls. *)
Definition batchreq (cmds : list (string * list (string * string))) : string :=
  join_sep ";"
    (map (fun cmd =>
            fst cmd +:+ ":"
            +:+ join_sep ","
                  (map (fun nv => fst nv +:+ "=" +:+ escapearg (snd nv))
                       (snd cmd)))
         cmds).

Section Remote.

(** [self._submitone(name, args)], the transport of one request. *)
Variable _submitone : string -> list (string * string) -> res string.

(** The generator, as the list of what it yields. *)
Definition _submitbatch (cmds : list (string * list (string * string)))
  : res (list string) :=
  match _submitone "batch" [("cmds", batchreq cmds)] with
  | Ok r => Ok (split_char ";" r)
  | Err e => Err e
  end.

End Remote.

(** *** Vocabulary for the statements *)

(** No comma, semicolon or equals sign. *)
Definition sepfree (s : string) : bool :=
  all_chars (fun c => negb (is_sep c)) s.

(** No colon and no semicolon. *)
Definition plainname (s : string) : bool :=
  all_chars (fun c => negb (Ascii.eqb c ":" || Ascii.eqb c ";")) s.

Definition wellformed (cmd : string * list (string * string)) : bool :=
  plainname (fst cmd)
  && forallb (fun nv => sepfree (fst nv) && sepfree (snd nv)) (snd cmd).

(** The keyword arguments of a call: a later value for a name replaces an
    earlier one. *)
Definition kwargs (args : list (string * string)) : gmap string string :=
  fold_left (fun m nv => <[fst nv := snd nv]> m) args ∅.

(** The calls of a batch made one after the other, up to the first that
    fails. *)
Fixpoint call_all (call : string -> gmap string string -> res string)
    (cmds : list (string * list (string * string))) : res (list string) :=
  match cmds with
  | [] => Ok []
  | cmd :: r =>
      match call (fst cmd) (kwargs (snd cmd)) with
      | Err e => Err e
      | Ok out =>
          match call_all call r with
          | Err e => Err e
          | Ok outs => Ok (out :: outs)
          end
      end
  end.

End BatchWire.

(** ** The SSH peer (mercurial/sshpeer.py) *)

Module SshPeer.
Import PyStr.

(** *** _serverquote *)




(** *** Exceptions and results *)

Inductive exn : Type :=
| IOError
| ValueError
| IndexError
| RepoError (msg : string) (hint : option string)
| OutOfBandError (hint : string)
| ResponseError (msg l : string).

Inductive res (A : Type) : Type :=
| Ok (a : A)
| Err (e : exn).
Arguments Ok {A} a.
Arguments Err {A} e.

(** *** File objects

    [data] holds the bytes a reader will still receive before end of file,
    of which the first [navail] have already arrived (they can be read
    without blocking).  On a [broken] pipe a write fails with [IOError],
    and so does a read that needs more than [data] holds.  Every method
    call is appended to [calls]. *)

Inductive call : Type :=
| CWrite (s : string)
| CFlush
| CReadline
| CRead (n : Z)
| CIter
| CReadpipe
| CClose.

Record pipe : Type := mkpipe {
  closed : bool;
  broken : bool;
  data : string;
  navail : nat;
  written : string;
  calls : list call
}.

Definition log (c : call) (p : pipe) : pipe :=
  mkpipe (closed p) (broken p) (data p) (navail p) (written p) (calls p ++ [c]).

Definition consume (k : nat) (p : pipe) : pipe :=
  mkpipe (closed p) (broken p) (sdrop k (data p)) (navail p - k)
         (written p) (calls p).

Definition has_nl (s : string) : bool :=
  existsb (Ascii.eqb NL) (list_ascii_of_string s).

(** [f.write(s)] *)
Definition file_write (s : string) (p0 : pipe) : res unit * pipe :=
  let p := log (CWrite s) p0 in
  if closed p then (Err ValueError, p)
  else if broken p then (Err IOError, p)
  else (Ok tt,
        mkpipe (closed p) (broken p) (data p) (navail p)
               (written p +:+ s) (calls p)).

(** [f.flush()] *)
Definition file_flush (p0 : pipe) : res unit * pipe :=
  let p := log CFlush p0 in
  if closed p then (Err ValueError, p) else (Ok tt, p).

(** [f.readline()]: up to and including the next newline; what is left
    when the data ends first (the empty string at end of file). *)
Definition file_readline (p0 : pipe) : res string * pipe :=
  let p := log CReadline p0 in
  if closed p then (Err ValueError, p)
  else if has_nl (data p) || negb (broken p)
  then let l := fst (cutline (data p)) in
       (Ok l, consume (String.length l) p)
  else (Err IOError, consume (String.length (data p)) p).

(** [f.read(n)]: exactly [n] bytes, fewer only at end of file; everything
    up to end of file for a negative [n]. *)
Definition file_read (n : Z) (p0 : pipe) : res string * pipe :=
  let p := log (CRead n) p0 in
  if closed p then (Err ValueError, p)
  else if (0 <=? n)%Z && (Z.to_nat n <=? String.length (data p))%nat
  then (Ok (stake (Z.to_nat n) (data p)), consume (Z.to_nat n) p)
  else if broken p then (Err IOError, consume (String.length (data p)) p)
  else (Ok (data p), consume (String.length (data p)) p).

(** The complete lines of a buffer (newlines kept) and the unterminated
    rest. *)
Fixpoint linesplit (s : string) : list string * string :=
  match s with
  | "" => ([], "")
  | String c r =>
      let (ls, tl) := linesplit r in
      if Ascii.eqb c NL then (String c "" :: ls, tl)
      else match ls with
           | h :: t => (String c h :: t, tl)
           | [] => ([], String c tl)
           end
  end.

(** [for l in f]: the lines up to end of file, each with its newline; the
    iteration ends with the exception, if any. *)
Definition file_iter (p0 : pipe) : (list string * res unit) * pipe :=
  let p := log CIter p0 in
  if closed p then (([], Err ValueError), p)
  else
    let (ls, tl) := linesplit (data p) in
    let p' := consume (String.length (data p)) p in
    if broken p then (ls, Err IOError, p')
    else ((ls ++ (if truthy tl then [tl] else []))%list, Ok tt, p').

(** [f.close()] *)
Definition file_close (p0 : pipe) : pipe :=
  let p := log CClose p0 in
  mkpipe true (broken p) (data p) (navail p) (written p) (calls p).

(** Modelled from the spec: procutil.readpipe is not among the sources.
    By the docstring of [_forwardoutput] it returns all data currently
    available on the pipe and does not block; a closed pipe has none. *)
Definition readpipe (p0 : pipe) : string * pipe :=
  let p := log CReadpipe p0 in
  if closed p then ("", p)
  else (stake (navail p) (data p), consume (navail p) p).

(** *** The world: the ui and the three pipes of one SSH connection

    The objects are shared: both doublepipes of a peer and the peer itself
    refer to the one stderr pipe, so all code runs on one store. *)

(** What [doublepipe._wait] finds, call after call: it depends on
    util.bufferedinputpipe and util.poll, which are not among the
    sources. *)
Inductive wait_env : Type :=
| MainHasBuffer
| PollUnsupported
| Polled (mainact sideact : bool).

Record world : Type := mkworld {
  ui_out : list string;
  stdin : pipe;
  stdout : pipe;
  stderr : pipe;
  waits : list wait_env
}.

Inductive fd : Type := Stdin | Stdout | Stderr.

Definition getpipe (f : fd) (w : world) : pipe :=
  match f with
  | Stdin => stdin w
  | Stdout => stdout w
  | Stderr => stderr w
  end.

Definition setpipe (f : fd) (p : pipe) (w : world) : world :=
  match f with
  | Stdin => mkworld (ui_out w) p (stdout w) (stderr w) (waits w)
  | Stdout => mkworld (ui_out w) (stdin w) p (stderr w) (waits w)
  | Stderr => mkworld (ui_out w) (stdin w) (stdout w) p (waits w)
  end.

Definition set_waits (l : list wait_env) (w : world) : world :=
  mkworld (ui_out w) (stdin w) (stdout w) (stderr w) l.

(** A computation returns a value, raises an exception, or blocks for
    ever. *)
Inductive outcome (A : Type) : Type :=
| Ret (a : A) (w : world)
| Exc (e : exn) (w : world)
| Blocked.
Arguments Ret {A} a w.
Arguments Exc {A} e w.
Arguments Blocked {A}.

Definition M (A : Type) : Type := world -> outcome A.

Definition ret {A} (a : A) : M A := fun w => Ret a w.
Definition raise {A} (e : exn) : M A := fun w => Exc e w.

Definition bind {A B} (m : M A) (k : A -> M B) : M B :=
  fun w =>
    match m w with
    | Ret a w' => k a w'
    | Exc e w' => Exc e w'
    | Blocked => Blocked
    end.

Declare Scope io_scope.
Delimit Scope io_scope with io.
Notation "x <- m ;; k" := (bind m (fun x => k))
  (at level 100, m at next level, right associativity) : io_scope.
Notation "m ;;; k" := (bind m (fun _ => k))
  (at level 100, right associativity) : io_scope.
Open Scope io_scope.

(** [try: m except <exceptions accepted by handles>: h] *)
Definition try_except {A} (m : M A) (handles : exn -> bool) (h : M A) : M A :=
  fun w =>
    match m w with
    | Exc e w' => if handles e then h w' else Exc e w'
    | o => o
    end.

Definition is_IOError (e : exn) : bool :=
  match e with IOError => true | _ => false end.

Definition is_IOError_or_ValueError (e : exn) : bool :=
  match e with IOError | ValueError => true | _ => false end.

(** A method call on the file object behind a descriptor. *)
Definition on_pipe {A} (f : fd) (op : pipe -> res A * pipe) : M A :=
  fun w =>
    let (r, p) := op (getpipe f w) in
    match r with
    | Ok a => Ret a (setpipe f p w)
    | Err e => Exc e (setpipe f p w)
    end.

Definition fwrite (f : fd) (s : string) : M unit := on_pipe f (file_write s).
Definition fflush (f : fd) : M unit := on_pipe f file_flush.
Definition freadline (f : fd) : M string := on_pipe f file_readline.
Definition fread (f : fd) (n : Z) : M string := on_pipe f (file_read n).
Definition fclose (f : fd) : M unit :=
  fun w => Ret tt (setpipe f (file_close (getpipe f w)) w).

(** [ui.status] with the given messages: they are written one after the
    other. *)
Definition ui_status (msgs : list string) : M unit :=
  fun w => Ret tt (mkworld (ui_out w ++ [join msgs])
                           (stdin w) (stdout w) (stderr w) (waits w)).

Fixpoint for_each {A} (l : list A) (body : A -> M unit) : M unit :=
  match l with
  | [] => ret tt
  | x :: r => body x ;;; for_each r body
  end.

(** *** _forwardoutput *)

Definition _forwardoutput (pipe : fd) : M unit :=
  s <- (fun w => let (s, p) := readpipe (getpipe pipe w) in
                 Ret s (setpipe pipe p w)) ;;
  if truthy s
  then for_each (splitlines s) (fun l => ui_status ["remote: "; l; nl])
  else ret tt.

(** *** class doublepipe

    A doublepipe is the pair of its main and side descriptors. *)

Module doublepipe.

Inductive methcall : Type :=
| Mwrite (data : string)
| Mread (size : Z)
| Mreadline.

(** [data is not None and not data] *)
Definition data_given_and_false (c : methcall) : bool :=
  match c with
  | Mwrite d => negb (truthy d)
  | Mread n => (n =? 0)%Z
  | Mreadline => false
  end.

(** [getattr(self._main, methname)] applied to [data]; [None] is Python's
    [None], which [write] returns. *)
Definition invoke (main : fd) (c : methcall) : M (option string) :=
  match c with
  | Mwrite d => fwrite main d ;;; ret None
  | Mread n => r <- fread main n ;; ret (Some r)
  | Mreadline => r <- freadline main ;; ret (Some r)
  end.

Definition wait_result (e : wait_env) : bool * bool :=
  match e with
  | MainHasBuffer => (true, true)
  | PollUnsupported => (true, true)
  | Polled mainact sideact => (mainact, sideact)
  end.

(** The [while True] loop of [_call]: one [_wait] per round. *)
Fixpoint _call_loop (main side : fd) (c : methcall) (env : list wait_env)
  : M (option string) :=
  match env with
  | [] => fun _ => Blocked
  | e :: env' =>
      fun w =>
        let (mainready, sideready) := wait_result e in
        ((if sideready then _forwardoutput side else ret tt) ;;;
         if mainready then invoke main c
         else _call_loop main side c env') (set_waits env' w)
  end.

Definition _call (main side : fd) (c : methcall) : M (option string) :=
  fun w =>
    if data_given_and_false c || closed (getpipe main w)
    then (_forwardoutput side ;;; ret (Some "")) w
    else _call_loop main side c (waits w) w.

Definition not_ (r : option string) : bool :=
  match r with
  | None => true
  | Some s => negb (truthy s)
  end.

Definition write (main side : fd) (data : string) : M (option string) :=
  _call main side (Mwrite data).

Definition read (main side : fd) (size : Z) : M (option string) :=
  r <- _call main side (Mread size) ;;
  (if negb (size =? 0)%Z && not_ r then _forwardoutput side else ret tt) ;;;
  ret r.

Definition readline (main side : fd) : M (option string) :=
  _call main side Mreadline.

Definition close (main : fd) : M unit := fclose main.

Definition flush (main : fd) : M unit := fflush main.

End doublepipe.

(** *** _cleanuppipes

    File objects and doublepipes are true in a boolean context, so the
    three [if pipe:] tests succeed. *)
Definition _cleanuppipes (pipei pipeo pipee : fd) : M unit :=
  fclose pipeo ;;;
  fclose pipei ;;;
  try_except
    (fun w =>
       let '((ls, r), p) := file_iter (getpipe pipee w) in
       (for_each ls (fun l => ui_status ["remote: "; l]) ;;;
        match r with Ok _ => ret tt | Err e => raise e end)
         (setpipe pipee p w))
    is_IOError_or_ValueError
    (ret tt) ;;;
  fclose pipee.

(** *** _performhandshake *)

(** What the handshake takes from its surroundings: two configuration
    items, the random token, and the protocol names and upgrade parameters
    of wireprototypes and wireprotoserver, which are not among the
    sources. *)
Record config : Type := mkconfig {
  advertise_v2 : bool;
  ssherrorhint : option string;
  token : string;
  upgradecaps : string;
  SSHV1 : string;
  SSHV2 : string
}.

Definition badresponse {A} (cfg : config) : M A :=
  _forwardoutput Stderr ;;;
  raise (RepoError "no suitable response from remote hg" (ssherrorhint cfg)).

Fixpoint repeat_char (c : ascii) (n : nat) : string :=
  match n with
  | O => ""
  | S k => String c (repeat_char c k)
  end.

Definition pairsarg : string :=
  repeat_char "0" 40 +:+ "-" +:+ repeat_char "0" 40.

Definition handshake_request (cfg : config) : list string :=
  let handshake :=
    [ "hello" +:+ nl;
      "between" +:+ nl;
      "pairs " +:+ fmt_d (Z.of_nat (String.length pairsarg)) +:+ nl;
      pairsarg ] in
  if advertise_v2 cfg
  then ("upgrade " +:+ token cfg +:+ " " +:+ upgradecaps cfg +:+ nl) :: handshake
  else handshake.

(** The longest prefix without a newline. *)
Fixpoint upto_nl (s : string) : string :=
  match s with
  | "" => ""
  | String c r => if Ascii.eqb c NL then "" else String c (upto_nl r)
  end.

(** [reupgraded.match(l)]: the pattern is, from the start of the line,
    the word upgraded, a space, the escaped token, a space, then a group
    of any number of dots, then a dollar.  The result is the group when
    the line matches.  A dot matches any character but a newline, and the
    dollar matches at the end of the string and just before a newline that
    ends it. *)
Definition reupgraded_match (tok l : string) : option string :=
  let pre := "upgraded " +:+ tok +:+ " " in
  if startswith l pre then
    let rest := sdrop (String.length pre) l in
    let g := upto_nl rest in
    let tl := sdrop (String.length g) rest in
    if String.eqb tl "" || String.eqb tl nl then Some g else None
  else None.

Inductive loop_step : Type :=
| Break (protoname : string)
| Continue (l : string).

(** The [while lines[-1] and max_noise:] loop with its [else:] branch;
    it yields the protocol name and the collected lines. *)
Fixpoint scan (cfg : config) (max_noise : nat) (protoname : string)
    (lines : list string) : M (string * list string) :=
  match max_noise with
  | O => badresponse cfg
  | S max_noise' =>
      if negb (truthy (List.last lines "")) then badresponse cfg
      else
        step <- try_except
                  (l <- freadline Stdout ;;
                   _forwardoutput Stderr ;;;
                   match reupgraded_match (token cfg) l with
                   | Some m1 => ret (Break m1)
                   | None =>
                       if String.eqb (List.last lines "") ("1" +:+ nl)
                          && String.eqb l nl
                       then ret (Break protoname)
                       else ret (Continue l)
                   end)
                  is_IOError
                  (badresponse cfg) ;;
        match step with
        | Break name => ret (name, lines)
        | Continue l => scan cfg max_noise' protoname (lines ++ [l])%list
        end
  end.

Definition max_noise : nat := 500.

(** [s.split(':')[1].split()] *)
Definition caps_of (s : string) : res (list string) :=
  match split_char ":" s with
  | _ :: x :: _ => Ok (split_ws x)
  | _ => Err IndexError
  end.

Definition lift_res {A} (r : res A) : M A :=
  match r with
  | Ok a => ret a
  | Err e => raise e
  end.

(** The request, written and flushed inside the first [try]. *)
Definition send_handshake (cfg : config) : M unit :=
  try_except
    (fwrite Stdin (join (handshake_request cfg)) ;;;
     fflush Stdin)
    is_IOError
    (badresponse cfg).

(** The capabilities: from the collected lines for version 1, from the
    stream for version 2, none for any other protocol name. *)
Definition read_caps (cfg : config) (protoname : string) (lines : list string)
  : M (gset string) :=
  if String.eqb protoname (SSHV1 cfg) then
    match List.find (fun l => startswith l "capabilities:") (rev lines) with
    | Some l =>
        toks <- lift_res (caps_of (butlast l)) ;;
        ret (list_to_set toks : gset string)
    | None => ret (∅ : gset string)
    end
  else if String.eqb protoname (SSHV2 cfg) then
    line <- freadline Stdout ;;
    valuelen <- match pyint line with
                | Some n => ret n
                | None => badresponse cfg
                end ;;
    capsline <- fread Stdout valuelen ;;
    (if negb (startswith capsline "capabilities: ")
     then badresponse cfg else ret tt) ;;;
    toks <- lift_res (caps_of capsline) ;;
    fread Stdout 1 ;;;
    ret (list_to_set toks : gset string)
  else ret (∅ : gset string).

(** The end of the function: no capabilities is an error. *)
Definition check_caps (cfg : config) (protoname : string) (caps : gset string)
  : M (string * gset string) :=
  (if bool_decide (caps = ∅) then badresponse cfg else ret tt) ;;;
  _forwardoutput Stderr ;;;
  ret (protoname, caps).

Definition _performhandshake (cfg : config) : M (string * gset string) :=
  send_handshake cfg ;;;
  found <- scan cfg max_noise (SSHV1 cfg) [""; "dummy"] ;;
  caps <- read_caps cfg (fst found) (snd found) ;;
  check_caps cfg (fst found) caps.

(** *** class sshv1peer (and sshv2peer, which adds nothing)

    With [autoreadstderr] the peer reads and writes through doublepipes
    over stdout and stdin, both with stderr as their side pipe. *)

Inductive peerclass : Type := Sshv1peer | Sshv2peer.

Record peer : Type := mkpeer {
  class : peerclass;
  _url : string;
  _caps : gset string;
  _autoreadstderr : bool
}.

Module sshv1peer.

(** Calls on [self._pipei] and [self._pipeo]. *)
Definition pipei_readline (self : peer) : M string :=
  if _autoreadstderr self
  then r <- doublepipe.readline Stdout Stderr ;; ret (default "" r)
  else freadline Stdout.

Definition pipei_read (self : peer) (size : Z) : M string :=
  if _autoreadstderr self
  then r <- doublepipe.read Stdout Stderr size ;; ret (default "" r)
  else fread Stdout size.

Definition pipeo_write (self : peer) (s : string) : M unit :=
  if _autoreadstderr self
  then doublepipe.write Stdin Stderr s ;;; ret tt
  else fwrite Stdin s.

Definition pipeo_flush (self : peer) : M unit :=
  if _autoreadstderr self then doublepipe.flush Stdin else fflush Stdin.

Definition close (self : peer) : M unit := ret tt.

Definition capabilities (self : peer) : gset string := _caps self.

Definition _readerr (self : peer) : M unit := _forwardoutput Stderr.

Definition _cleanup (self : peer) : M unit :=
  _cleanuppipes Stdout Stdin Stderr.


Definition _abort {A} (self : peer) (exception : exn) : M A :=
  _cleanup self ;;; raise exception.

Definition _getamount (self : peer) : M Z :=
  l <- pipei_readline self ;;
  (if String.eqb l nl then
     (if _autoreadstderr self then _readerr self else ret tt) ;;;
     _abort self (OutOfBandError "check previous remote output")
   else ret tt) ;;;
  (if _autoreadstderr self then _readerr self else ret tt) ;;;
  match pyint l with
  | Some n => ret n
  | None => _abort self (ResponseError "unexpected response:" l)
  end.

Definition _readframed (self : peer) : M string :=
  size <- _getamount self ;;
  if (size =? 0)%Z then ret ""
  else pipei_read self size.

Definition _writeframed (self : peer) (data : string) (flush : bool) : M unit :=
  pipeo_write self (fmt_d (Z.of_nat (String.length data)) +:+ nl) ;;;
  (if truthy data then pipeo_write self data else ret tt) ;;;
  (if flush then pipeo_flush self else ret tt) ;;;
  (if _autoreadstderr self then _readerr self else ret tt).

End sshv1peer.

(** *** makepeer *)

(** [try: m except Exception: h; raise] *)
Definition except_reraise {A} (m : M A) (h : M unit) : M A :=
  fun w =>
    match m w with
    | Exc e w' => (h ;;; raise e) w'
    | o => o
    end.

Definition makepeer (cfg : config) (path : string) (autoreadstderr : bool)
  : M peer :=
  shaken <- except_reraise (_performhandshake cfg)
                           (_cleanuppipes Stdout Stdin Stderr) ;;
  let '(protoname, caps) := shaken in
  if String.eqb protoname (SSHV1 cfg) then
    ret (mkpeer Sshv1peer path caps autoreadstderr)
  else if String.eqb protoname (SSHV2 cfg) then
    ret (mkpeer Sshv2peer path caps autoreadstderr)
  else
    _cleanuppipes Stdout Stdin Stderr ;;;
    raise (RepoError ("unknown version of SSH protocol: " +:+ protoname) None).

End SshPeer.

(** ** Vocabulary for the statements about the SSH peer *)

Module SshSpec.
Import PyStr SshPeer.

(** The bytes a pipe can deliver without blocking. *)
Definition available (p : pipe) : string :=
  if closed p then "" else stake (navail p) (data p).

(** What the ui receives for forwarded output [s]: one status message for
    each line. *)
Definition remote_lines (s : string) : list string :=
  map (fun l => join ["remote: "; l; nl]) (splitlines s).

Definition add_out (msgs : list string) (w : world) : world :=
  mkworld (ui_out w ++ msgs) (stdin w) (stdout w) (stderr w) (waits w).

(** The world after one [_forwardoutput] on [side]. *)
Definition forwarded (side : fd) (w : world) : world :=
  add_out (remote_lines (available (getpipe side w)))
          (setpipe side (snd (readpipe (getpipe side w))) w).

(** From [w] to [w'] all the output available on [side] has gone to the
    ui, nothing is left available, and no other file object has changed or
    received a call. *)
Definition forwards_all (side : fd) (w w' : world) : Prop :=
  ui_out w' = (ui_out w ++ remote_lines (available (getpipe side w)))%list
  /\ available (getpipe side w') = ""
  /\ forall f : fd, f <> side -> getpipe f w' = getpipe f w.

(** The lines a [for l in pipe] loop receives. *)
Definition drained (p : pipe) : list string := fst (fst (file_iter p)).

(** The world after the cleanup of the three pipes. *)
Definition cleaned (w : world) : world :=
  mkworld
    (ui_out w ++ map (fun l => join ["remote: "; l]) (drained (stderr w)))
    (file_close (stdin w))
    (file_close (stdout w))
    (file_close (snd (file_iter (stderr w))))
    (waits w).

(** The number of rounds of [_wait] that report the main pipe ready. *)
Fixpoint ready_count (env : list wait_env) : nat :=
  match env with
  | [] => 0
  | e :: r =>
      (if fst (doublepipe.wait_result e) then 1 else 0) + ready_count r
  end.

(** A peer can do [n] blocking operations on its pipes: without
    doublepipes it always can. *)
Definition can_io (self : peer) (n : nat) (w : world) : Prop :=
  _autoreadstderr self = true -> n <= ready_count (waits w).

(** A frame as [_writeframed] sends it. *)
Definition frame (b : string) : string :=
  fmt_d (Z.of_nat (String.length b)) +:+ nl +:+ b.

(** A complete line: characters other than newline, then a newline. *)
Definition is_line (l : string) : bool :=
  match cutline l with
  | (l', "") => String.eqb l' l && has_nl l
  | _ => false
  end.

(** The line that acknowledges an upgrade to [version]. *)
Definition upgraded_line (cfg : config) (version : string) : string :=
  "upgraded " +:+ token cfg +:+ " " +:+ version +:+ nl.

(** Lines that the scan of the handshake takes for noise: complete lines
    none of which acknowledges the upgrade or is the empty line after a
    line holding 1. *)
Fixpoint noise (cfg : config) (prev : string) (ls : list string) : bool :=
  match ls with
  | [] => true
  | l :: r =>
      is_line l
      && negb (bool_decide (is_Some (reupgraded_match (token cfg) l)))
      && negb (String.eqb prev ("1" +:+ nl) && String.eqb l nl)
      && noise cfg l r
  end.

(** A computation that never blocks. *)
Definition noblock {A} (m : M A) : Prop := forall w, m w <> Blocked.

Definition not_colon (c : ascii) : bool := negb (Ascii.eqb c ":").


(** Between [w] and [w1] the output available on [side] has been
    forwarded to the ui, or nothing has happened to it. *)
Definition side_progress (side : fd) (w w1 : world) : Prop :=
  (ui_out w1 = ui_out w
   /\ available (getpipe side w1) = available (getpipe side w))
  \/ (ui_out w1 = (ui_out w ++ remote_lines (available (getpipe side w)))%list
      /\ available (getpipe side w1) = "").

(** The call that a method call through a doublepipe makes on the main
    pipe. *)
Definition call_of (c : doublepipe.methcall) : call :=
  match c with
  | doublepipe.Mwrite d => CWrite d
  | doublepipe.Mread n => CRead n
  | doublepipe.Mreadline => CReadline
  end.

(** From [w] to [w'] the stdin pipe is untouched and the stdout and
    stderr pipes are as open or closed as they were; a computation that
    keeps it so however it ends. *)
Definition kept (w w' : world) : Prop :=
  stdin w' = stdin w
  /\ closed (stdout w') = closed (stdout w)
  /\ closed (stderr w') = closed (stderr w).

Definition keeps {A} (m : M A) : Prop :=
  forall w,
    match m w with
    | Ret _ w' => kept w w'
    | Exc _ w' => kept w w'
    | Blocked => True
    end.

(** The error of [badresponse]. *)
Definition noresponse (cfg : config) : exn :=
  RepoError "no suitable response from remote hg" (ssherrorhint cfg).

Definition all_closed (w : world) : Prop :=
  closed (stdin w) = true /\ closed (stdout w) = true
  /\ closed (stderr w) = true.

End SshSpec.

(** ** Pushing a payload (sshv1peer._callpush)

    The payload goes out as frames of at most 4096 bytes followed by an
    empty frame; the answer is an empty frame and a frame with the
    result, or a non-empty frame with an error. *)

Module SshPush.
Import PyStr SshPeer SshSpec.

Definition chunksize : nat := 4096.

Section Push.

(** [self._call(cmd, **args)], which sends the request and returns the
    framed answer, whatever the command table is. *)
Variable _call : peer -> string -> gmap string string -> M string.

(** [for d in iter(lambda: fp.read(4096), ''): self._writeframed(d)] for
    a file [fp] that holds [content] from its position on; [fuel] bounds
    the number of reads. *)
Fixpoint sendpayload (self : peer) (fuel : nat) (content : string) : M unit :=
  match fuel with
  | O => ret tt
  | S k =>
      let d := stake chunksize content in
      if truthy d then
        sshv1peer._writeframed self d false ;;;
        sendpayload self k (sdrop chunksize content)
      else ret tt
  end.

(** Every read but the last takes at least one byte, so one read more
    than the content has bytes is enough. *)
Definition _callpush (self : peer) (cmd : string) (fp : string)
    (args : gmap string string) : M (string * string) :=
  r <- _call self cmd args ;;
  if truthy r then ret ("", r)
  else
    sendpayload self (S (String.length fp)) fp ;;;
    sshv1peer._writeframed self "" true ;;;
    r <- sshv1peer._readframed self ;;
    if truthy r then ret ("", r)
    else
      r2 <- sshv1peer._readframed self ;;
      ret (r2, "").

End Push.

(** *** Vocabulary for the statements *)

(** What the reads of 4096 bytes return before the empty string. *)
Fixpoint chunks (fuel : nat) (content : string) : list string :=
  match fuel with
  | O => []
  | S k =>
      let d := stake chunksize content in
      if truthy d then d :: chunks k (sdrop chunksize content) else []
  end.

Definition payload_chunks (content : string) : list string :=
  chunks (S (String.length content)) content.

(** Frames one after the other. *)
Definition frames (l : list string) : string := join (map frame l).

End SshPush.

(** ** Command state and unfinished operations (mercurial/state.py) *)

Module State.
Import PyStr.

Inductive exn : Type :=
| ProgrammingError (msg : string)
| CorruptedState (msg : string)
| IOError
| IndexError
| CBORDecodeError.

Inductive res (A : Type) : Type :=
| Ok (a : A)
| Err (e : exn).
Arguments Ok {A} a.
Arguments Err {A} e.

(** The codec of mercurial/utils/cborutil.py, which is not among the
    sources, is a parameter: [streamencode] yields the chunks of the
    encoding of a value, [decodeall] the values encoded in a byte string,
    [None] standing for its [CBORDecodeError]. *)
Class Codec (V : Type) : Type := {
  streamencode : V -> list string;
  decodeall : string -> option (list V)
}.

(** The repository as the state code sees it: the files under .hg, the
    number of parents of the working copy, and the configured list
    commands.status.skipstates. *)
Record repo : Type := mkrepo {
  vfs : gmap string string;
  parents : nat;
  skipstates : list string
}.

Definition vfs_write (name content : string) (r : repo) : repo :=
  mkrepo (<[name := content]> (vfs r)) (parents r) (skipstates r).

Definition vfs_exists (name : string) (r : repo) : bool :=
  bool_decide (is_Some (vfs r !! name)).

Definition vfs_unlink (name : string) (r : repo) : repo :=
  mkrepo (delete name (vfs r)) (parents r) (skipstates r).

(** The values a caller may pass as a version. *)
Inductive pyobj : Type :=
| PyInt (z : Z)
| PyBool (b : bool)
| PyBytes (s : string)
| PyNone.

(** [isinstance(v, int)]; [bool] is a subclass of [int]. *)
Definition isinstance_int (v : pyobj) : bool :=
  match v with
  | PyInt _ | PyBool _ => true
  | PyBytes _ | PyNone => false
  end.

Definition int_of (v : pyobj) : Z :=
  match v with
  | PyInt z => z
  | PyBool true => 1
  | _ => 0
  end.

(** *** class cmdstate *)

Record cmdstate : Type := mkcmdstate { fname : string }.

Section WithCodec.
Context {V : Type} `{Codec V}.

(** The file is written to a temporary file and renamed when the [with]
    block ends, so it appears with its whole content. *)
Definition save (self : cmdstate) (version : pyobj) (data : V) (r : repo)
  : res unit * repo :=
  if negb (isinstance_int version)
  then (Err (ProgrammingError "version of state file should be an integer"), r)
  else
    let content := fmt_d (int_of version) +:+ nl +:+ join (streamencode data) in
    (Ok tt, vfs_write (fname self) content r).

Definition _read (self : cmdstate) (r : repo) : res V :=
  match vfs r !! fname self with
  | None => Err IOError
  | Some content =>
      let (line, rest) := cutline content in
      match pyint line with
      | None => Err (CorruptedState "unknown version of state file found")
      | Some _ =>
          match decodeall rest with
          | None => Err CBORDecodeError
          | Some [] => Err IndexError
          | Some (v :: _) => Ok v
          end
      end
  end.

Definition read (self : cmdstate) (r : repo) : res V := _read self r.

End WithCodec.

Definition delete (self : cmdstate) (r : repo) : repo :=
  vfs_unlink (fname self) r.

Definition exists_ (self : cmdstate) (r : repo) : bool :=
  vfs_exists (fname self) r.

(** *** class _statecheck *)

Record _statecheck : Type := mkstatecheck {
  _opname : string;
  _fname : string;
  _clearable : bool;
  _allowcommit : bool;
  _reportonly : bool;
  _continueflag : bool;
  _stopflag : bool;
  _cmdmsg : string;
  _cmdhint : string;
  _statushint : string;
  abortfunc : option string;
  continuefunc : option string
}.

Definition statusmsg (self : _statecheck) : string :=
  if negb (truthy (_statushint self)) then
    let hint :=
      "To continue:    hg " +:+ _opname self +:+ " --continue" +:+ nl +:+
      "To abort:       hg " +:+ _opname self +:+ " --abort" in
    if _stopflag self
    then hint +:+ (nl +:+ "To stop:        hg " +:+ _opname self +:+ " --stop")
    else hint
  else _statushint self.

Definition isunfinished (self : _statecheck) (r : repo) : bool :=
  if String.eqb (_opname self) "merge"
  then (1 <? parents r)%nat
  else vfs_exists (_fname self) r.

(** *** The registry [_unfinishedstates] and its two functions *)

Definition addunfinished (statecheckobj : _statecheck)
    (_unfinishedstates : list _statecheck) : list _statecheck :=
  if String.eqb (_opname statecheckobj) "merge"
  then (_unfinishedstates ++ [statecheckobj])%list
  else statecheckobj :: _unfinishedstates.

Definition plain (opname fname_ : string) : _statecheck :=
  mkstatecheck opname fname_ false false false false false "" "" "" None None.

(** The registry once the module is loaded: update and bisect. *)
Definition initial_states : list _statecheck :=
  addunfinished
    (mkstatecheck "bisect" "bisect.state" false true true false false "" ""
       ("To mark the changeset good:    hg bisect --good" +:+ nl +:+
        "To mark the changeset bad:     hg bisect --bad" +:+ nl +:+
        "To abort:                      hg bisect --reset" +:+ nl)
       None None)
    (addunfinished
       (mkstatecheck "update" "updatestate" true false false false false
          "last update was interrupted"
          "use 'hg update' to get a consistent checkout"
          "To continue:    hg update" None None)
       []).

Fixpoint getrepostate_from (states : list _statecheck) (skip : gset string)
    (r : repo) : option (string * string) :=
  match states with
  | [] => None
  | state :: rest =>
      if bool_decide (_opname state ∈ skip) then getrepostate_from rest skip r
      else if isunfinished state r then Some (_opname state, statusmsg state)
      else getrepostate_from rest skip r
  end.

Definition getrepostate (_unfinishedstates : list _statecheck) (r : repo)
  : option (string * string) :=
  getrepostate_from _unfinishedstates (list_to_set (skipstates r)) r.

(** Vocabulary for the statements about the registry. *)
Definition is_merge (d : _statecheck) : bool := String.eqb (_opname d) "merge".

(** A descriptor that detection passes over. *)
Definition passed (skip : gset string) (r : repo) (d : _statecheck) : Prop :=
  _opname d ∈ skip \/ isunfinished d r = false.

(** The registry after a sequence of registrations, oldest first. *)
Definition register_all (regs : list _statecheck) (start : list _statecheck)
  : list _statecheck :=
  fold_left (fun states d => addunfinished d states) regs start.

End State.

(** ** A codec instance: a fragment of CBOR

    Modelled from the spec: cborutil is not among the sources.  The state
    file holds CBOR, of which this is the fragment of unsigned integers,
    byte strings and arrays of definite length (RFC 7049): an initial byte
    made of the major type and of the argument or its size, the argument
    in big-endian bytes, then the content. *)

Module MiniCbor.
Import PyStr.

#[local] Set Warnings "-register-all".

Inductive cbor : Type :=
| CUint (n : N)
| CBytes (s : string)
| CArray (items : list cbor).

Fixpoint be_bytes (k : nat) (n : N) : string :=
  match k with
  | O => ""
  | S k' => String (ascii_of_N ((n / 256 ^ N.of_nat k') mod 256)) (be_bytes k' n)
  end.

Fixpoint be_value (acc : N) (s : string) : N :=
  match s with
  | "" => acc
  | String c r => be_value (acc * 256 + N_of_ascii c) r
  end.

Definition head (major n : N) : string :=
  if (n <? 24)%N then String (ascii_of_N (major * 32 + n)) ""
  else if (n <? 256)%N then String (ascii_of_N (major * 32 + 24)) (be_bytes 1 n)
  else if (n <? 65536)%N then String (ascii_of_N (major * 32 + 25)) (be_bytes 2 n)
  else if (n <? 4294967296)%N
  then String (ascii_of_N (major * 32 + 26)) (be_bytes 4 n)
  else String (ascii_of_N (major * 32 + 27)) (be_bytes 8 n).

Fixpoint encode (v : cbor) : string :=
  match v with
  | CUint n => head 0 n
  | CBytes s => head 2 (N.of_nat (String.length s)) +:+ s
  | CArray items =>
      head 4 (N.of_nat (List.length items)) +:+
      (fix encode_items (l : list cbor) : string :=
         match l with
         | [] => ""
         | x :: r => encode x +:+ encode_items r
         end) items
  end.

(** The argument of an initial byte with additional information [info]. *)
Definition argument (info : N) (s : string) : option (N * string) :=
  let sized (k : nat) :=
    if (k <=? String.length s)%nat
    then Some (be_value 0 (stake k s), sdrop k s) else None in
  if (info <? 24)%N then Some (info, s)
  else if (info =? 24)%N then sized 1%nat
  else if (info =? 25)%N then sized 2%nat
  else if (info =? 26)%N then sized 4%nat
  else if (info =? 27)%N then sized 8%nat
  else None.

Fixpoint decode_seq (decode1 : string -> option (cbor * string)) (n : nat)
    (s : string) : option (list cbor * string) :=
  match n with
  | O => Some ([], s)
  | S k =>
      match decode1 s with
      | Some (v, r) =>
          match decode_seq decode1 k r with
          | Some (vs, r') => Some (v :: vs, r')
          | None => None
          end
      | None => None
      end
  end.

Fixpoint decode (fuel : nat) (s : string) : option (cbor * string) :=
  match fuel, s with
  | S fuel', String c r =>
      let b := N_of_ascii c in
      match argument (b mod 32) r with
      | Some (n, r') =>
          if (N.of_nat (String.length r') <? n)%N then
            (if (b / 32 =? 0)%N then Some (CUint n, r') else None)
          else if (b / 32 =? 0)%N then Some (CUint n, r')
          else if (b / 32 =? 2)%N
          then Some (CBytes (stake (N.to_nat n) r'), sdrop (N.to_nat n) r')
          else if (b / 32 =? 4)%N then
            match decode_seq (decode fuel') (N.to_nat n) r' with
            | Some (vs, r'') => Some (CArray vs, r'')
            | None => None
            end
          else None
      | None => None
      end
  | _, _ => None
  end.

Fixpoint decode_all (fuel : nat) (s : string) : option (list cbor) :=
  match s with
  | "" => Some []
  | String _ _ =>
      match fuel with
      | O => None
      | S fuel' =>
          match decode (String.length s) s with
          | Some (v, r) =>
              match decode_all fuel' r with
              | Some vs => Some (v :: vs)
              | None => None
              end
          | None => None
          end
      end
  end.

#[global] Instance codec : State.Codec cbor := {
  State.streamencode v := [encode v];
  State.decodeall s := decode_all (String.length s) s
}.

End MiniCbor.

(** ** Values used in the examples *)

Module Examples.
Import PyStr.

Definition payload : MiniCbor.cbor :=
  MiniCbor.CArray
    [MiniCbor.CBytes "a"; MiniCbor.CUint 1;
     MiniCbor.CBytes "b";
     MiniCbor.CArray [MiniCbor.CUint 1; MiniCbor.CUint 2; MiniCbor.CUint 300]].

Definition emptyrepo : State.repo := State.mkrepo ∅ 1 [].

Definition slot : State.cmdstate := State.mkcmdstate "splitstate".

(** A state file with a good version line followed by two values. *)
Definition tworepo : State.repo :=
  State.vfs_write "splitstate"
    ("1" +:+ nl +:+ MiniCbor.encode (MiniCbor.CUint 1)
         +:+ MiniCbor.encode (MiniCbor.CUint 2))
    emptyrepo.

(** A state file with a good version line and nothing after it. *)
Definition barerepo : State.repo :=
  State.vfs_write "splitstate" ("1" +:+ nl) emptyrepo.

(** A connection with its three pipes open and an error message of the
    server waiting on stderr. *)
Definition openpipe (d : string) (n : nat) : SshPeer.pipe :=
  SshPeer.mkpipe false false d n "" [].

Definition liveworld : SshPeer.world :=
  SshPeer.mkworld [] (openpipe "" 0) (openpipe "" 0)
    (openpipe ("abort: no space left" +:+ nl) 21)
    [SshPeer.Polled false true; SshPeer.PollUnsupported;
     SshPeer.MainHasBuffer].

(** A connection on which a frame holding hello has arrived, followed by
    other bytes. *)
Definition readworld : SshPeer.world :=
  SshPeer.mkworld [] (openpipe "" 0)
    (openpipe ("5" +:+ nl +:+ "hello" +:+ "0" +:+ nl) 0)
    (openpipe "" 0)
    [SshPeer.PollUnsupported; SshPeer.PollUnsupported].

Definition cfg0 : SshPeer.config :=
  SshPeer.mkconfig true None "4f2c" "proto=exp-ssh-v2-0001"
    "ssh-v1" "exp-ssh-v2-0001".

(** The answer of a server that knows version 1 only, after a banner: 0
    for the upgrade request, the capabilities for hello, and the empty
    list for between. *)
Definition legacylines : list string :=
  ["Welcome" +:+ nl; "0" +:+ nl; "25" +:+ nl;
   "capabilities: foo bar" +:+ nl; "1" +:+ nl].

Definition legacyworld : SshPeer.world :=
  SshPeer.mkworld [] (openpipe "" 0)
    (openpipe (join legacylines +:+ nl) 0) (openpipe "" 0) [].

(** The answer of a server that accepts the upgrade, after a banner: the
    acknowledgement, then the length of the capabilities value, the value
    and a newline. *)
Definition upgradedworld : SshPeer.world :=
  SshPeer.mkworld [] (openpipe "" 0)
    (openpipe ("Welcome" +:+ nl +:+ "upgraded 4f2c exp-ssh-v2-0001" +:+ nl
               +:+ "21" +:+ nl +:+ "capabilities: foo bar" +:+ nl) 0)
    (openpipe "" 0) [].


Definition apeer : SshPeer.peer :=
  SshPeer.mkpeer SshPeer.Sshv1peer "ssh://host/repo" ∅ true.

(** A connection on which the server answered with a message where a
    length was expected. *)
Definition garbledworld : SshPeer.world :=
  SshPeer.mkworld [] (openpipe "" 0)
    (openpipe ("oops" +:+ nl +:+ "more") 0) (openpipe "" 0)
    [SshPeer.PollUnsupported].

(** A working copy with two parents and no file under .hg. *)
Definition mergerepo : State.repo := State.mkrepo ∅ 2 [].

(** Two operations x and y both with their state file present. *)
Definition xyrepo : State.repo :=
  State.vfs_write "ystate" "1"
    (State.vfs_write "xstate" "1" emptyrepo).

(** Two wire methods in the manner of the demo's server. *)
Definition wiremethods (name : string) (vals : gmap string string)
  : BatchWire.res string :=
  if String.eqb name "bar" then
    match vals !! "b", vals !! "a" with
    | Some b, Some a => BatchWire.Ok (b +:+ " und " +:+ a)
    | _, _ => BatchWire.Err BatchWire.TypeError
    end
  else if String.eqb name "greet" then
    match vals !! "name" with
    | Some n => BatchWire.Ok ("Hello, " +:+ n)
    | None => BatchWire.Err BatchWire.TypeError
    end
  else BatchWire.Err BatchWire.AttributeError.

(** A transport that hands a batch request to the server as it is. *)
Definition directly (name : string) (args : list (string * string))
  : BatchWire.res string :=
  match args with
  | [(_, req)] =>
      if String.eqb name "batch" then BatchWire.batch wiremethods req
      else BatchWire.Err BatchWire.AttributeError
  | _ => BatchWire.Err BatchWire.TypeError
  end.

Definition twocalls : list (string * list (string * string)) :=
  [("bar", [("b", "Eins"); ("a", "1:2")]); ("greet", [("name", "you")])].

(** A peer without doublepipes. *)
Definition plainpeer : SshPeer.peer :=
  SshPeer.mkpeer SshPeer.Sshv1peer "ssh://host/repo" ∅ false.

(** The call of a command without arguments: the command line, then the
    framed answer. *)
Definition noargcall (self : SshPeer.peer) (cmd : string)
    (args : gmap string string) : SshPeer.M string :=
  SshPeer.bind (SshPeer.sshv1peer.pipeo_write self (cmd +:+ nl))
    (fun _ =>
       SshPeer.bind (SshPeer.sshv1peer.pipeo_flush self)
         (fun _ => SshPeer.sshv1peer._readframed self)).

(** A server that accepts the push and reports the result 1. *)
Definition pushworld : SshPeer.world :=
  SshPeer.mkworld [] (openpipe "" 0)
    (openpipe ("0" +:+ nl +:+ "0" +:+ nl +:+ "1" +:+ nl +:+ "1") 0)
    (openpipe "" 0) [].

End Examples.

(* ===================================================================== *)
(** * Part II: properties                                                 *)
(* ===================================================================== *)

Module PyStrFacts.
Import PyStr.

Example replace_ex1 : replace ":" "::" "a:b" = "a::b".
Proof. reflexivity. Qed.

Example replace_ex2 : replace "::" ":" ":::::" = ":::".
Proof. reflexivity. Qed.

Example replace_ex3 : replace "ab" "x" "aabab" = "axx".
Proof. reflexivity. Qed.

Example splitlines_ex :
  splitlines (String "a" (String CR (String NL (String "b" (String NL "")))))
  = ["a"; "b"].
Proof. reflexivity. Qed.

Example split_ws_ex : split_ws "  foo bar  baz " = ["foo"; "bar"; "baz"].
Proof. reflexivity. Qed.

Example pyint_ex1 : pyint (" 42" +:+ nl) = Some 42%Z.
Proof. reflexivity. Qed.

Example pyint_ex2 : pyint "-7" = Some (-7)%Z /\ pyint "" = None /\ pyint "4x" = None.
Proof. repeat split. Qed.

Lemma app_nil_r_s (s : string) : s +:+ "" = s.
Proof. induction s as [|c s IH]; simpl; [reflexivity | now rewrite IH]. Qed.

Lemma app_assoc_s (a b c : string) : (a +:+ b) +:+ c = a +:+ (b +:+ c).
Proof. induction a as [|x a IH]; simpl; [reflexivity | now rewrite IH]. Qed.

Lemma length_app_s (a b : string) :
  String.length (a +:+ b) = (String.length a + String.length b)%nat.
Proof. induction a as [|x a IH]; simpl; [reflexivity | now rewrite IH]. Qed.

Lemma sdrop_app (a b : string) : sdrop (String.length a) (a +:+ b) = b.
Proof. induction a as [|x a IH]; simpl; [reflexivity | exact IH]. Qed.

Lemma stake_app (a b : string) : stake (String.length a) (a +:+ b) = a.
Proof. induction a as [|x a IH]; simpl; [now destruct b | now rewrite IH]. Qed.

Lemma all_chars_app P (a b : string) :
  all_chars P (a +:+ b) = all_chars P a && all_chars P b.
Proof.
  induction a as [|x a IH]; simpl; [reflexivity|].
  now rewrite IH, andb_assoc.
Qed.

Lemma all_chars_impl (P Q : ascii -> bool) (s : string) :
  (forall c, P c = true -> Q c = true) ->
  all_chars P s = true -> all_chars Q s = true.
Proof.
  intros HPQ. induction s as [|c s IH]; simpl; [reflexivity|].
  intros [Hc Hs]%andb_true_iff. rewrite (HPQ c Hc). now apply IH.
Qed.

(** *** Lines *)

Lemma cutline_app (s rest : string) :
  all_chars not_nl s = true ->
  cutline (s +:+ String NL rest) = (s +:+ nl, rest).
Proof.
  induction s as [|c s IH]; simpl; [reflexivity|].
  intros [Hc Hs]%andb_true_iff. unfold not_nl in Hc.
  apply negb_true_iff in Hc. rewrite Hc, (IH Hs). reflexivity.
Qed.

(** *** Decimal numerals *)

Lemma is_digit_not_space c : is_digit c = true -> isspace c = false.
Proof.
  destruct c as [[] [] [] [] [] [] [] []]; try reflexivity; discriminate.
Qed.

Lemma is_digit_not_nl c : is_digit c = true -> not_nl c = true.
Proof.
  destruct c as [[] [] [] [] [] [] [] []]; try reflexivity; discriminate.
Qed.

Lemma is_digit_not_sign c :
  is_digit c = true -> Ascii.eqb c "-" = false /\ Ascii.eqb c "+" = false.
Proof.
  destruct c as [[] [] [] [] [] [] [] []]; try (split; reflexivity); discriminate.
Qed.

Lemma digits_of_uint d : all_chars is_digit (NilEmpty.string_of_uint d) = true.
Proof. induction d; simpl; [reflexivity | assumption ..]. Qed.

Lemma string_of_uint_nonempty d :
  d <> Decimal.Nil -> NilEmpty.string_of_uint d <> "".
Proof. destruct d; simpl; congruence. Qed.

(** The two shapes of a formatted integer. *)
Lemma fmt_d_cases z :
  (exists d, d <> Decimal.Nil /\ fmt_d z = NilEmpty.string_of_uint d
             /\ Z.of_uint d = z)
  \/ (exists d, d <> Decimal.Nil
                /\ fmt_d z = String "-" (NilEmpty.string_of_uint d)
                /\ Z.opp (Z.of_uint d) = z).
Proof.
  pose proof (DecimalZ.of_to z) as Hz. unfold fmt_d.
  destruct z as [|p|p]; simpl in *.
  - left. exists Decimal.zero. repeat split. discriminate.
  - left. exists (Pos.to_uint p). repeat split; [|exact Hz].
    apply DecimalPos.Unsigned.to_uint_nonnil.
  - right. exists (Pos.to_uint p). repeat split; [|exact Hz].
    apply DecimalPos.Unsigned.to_uint_nonnil.
Qed.

Lemma fmt_d_no_nl z : all_chars not_nl (fmt_d z) = true.
Proof.
  destruct (fmt_d_cases z) as [(d & _ & -> & _)|(d & _ & -> & _)]; simpl;
    apply (all_chars_impl is_digit); auto using is_digit_not_nl, digits_of_uint.
Qed.

Lemma fmt_d_nonempty z : fmt_d z <> "".
Proof.
  destruct (fmt_d_cases z) as [(d & Hd & -> & _)|(d & _ & -> & _)];
    [now apply string_of_uint_nonempty | discriminate].
Qed.

(** *** Stripping and [int] *)

Lemma rstrip_spaces (t : string) : all_chars isspace t = true -> rstrip t = "".
Proof.
  induction t as [|c t IH]; simpl; [reflexivity|].
  intros [Hc Ht]%andb_true_iff. now rewrite (IH Ht), Hc.
Qed.

Lemma rstrip_app_spaces (s t : string) :
  all_chars isspace t = true -> rstrip (s +:+ t) = rstrip s.
Proof.
  intros Ht. induction s as [|c s IH]; simpl.
  - now apply rstrip_spaces.
  - now rewrite IH.
Qed.

Lemma rstrip_id (s : string) :
  all_chars (fun c => negb (isspace c)) s = true -> rstrip s = s.
Proof.
  induction s as [|c s IH]; simpl; [reflexivity|].
  intros [Hc Hs]%andb_true_iff. rewrite (IH Hs).
  apply negb_true_iff in Hc. rewrite Hc. now destruct s.
Qed.

Lemma strip_line (s : string) :
  all_chars (fun c => negb (isspace c)) s = true -> strip (s +:+ nl) = s.
Proof.
  intros Hs. unfold strip.
  destruct s as [|c s]; [reflexivity|].
  assert (Hl : lstrip (String c s +:+ nl) = String c s +:+ nl).
  { simpl in *. apply andb_true_iff in Hs as [Hc _].
    apply negb_true_iff in Hc. now rewrite Hc. }
  rewrite Hl, rstrip_app_spaces by reflexivity. now apply rstrip_id.
Qed.

Lemma parse_digits_uint d :
  d <> Decimal.Nil ->
  parse_digits (NilEmpty.string_of_uint d) = Some (Z.of_uint d).
Proof.
  intros Hd. unfold parse_digits.
  pose proof (string_of_uint_nonempty d Hd) as Hne.
  pose proof (NilEmpty.usu d) as Hu.
  destruct (NilEmpty.string_of_uint d); [congruence|]. now rewrite Hu.
Qed.

Lemma pyint_digits d :
  d <> Decimal.Nil ->
  pyint (NilEmpty.string_of_uint d +:+ nl) = Some (Z.of_uint d).
Proof.
  intros Hd. unfold pyint. rewrite strip_line.
  - pose proof (parse_digits_uint d Hd) as Hp.
    pose proof (digits_of_uint d) as Hdig.
    destruct (NilEmpty.string_of_uint d) as [|c r]; [discriminate|].
    simpl in Hdig. apply andb_true_iff in Hdig as [Hc _].
    destruct (is_digit_not_sign c Hc) as [-> ->]. exact Hp.
  - apply (all_chars_impl is_digit); [|apply digits_of_uint].
    intros c Hc. now rewrite (is_digit_not_space c Hc).
Qed.

(** Reading back a formatted integer, with or without its newline. *)
Lemma pyint_fmt_d z : pyint (fmt_d z +:+ nl) = Some z.
Proof.
  destruct (fmt_d_cases z) as [(d & Hd & -> & <-)|(d & Hd & -> & <-)].
  - now apply pyint_digits.
  - unfold pyint. rewrite strip_line.
    + rewrite Ascii.eqb_refl, parse_digits_uint by assumption. reflexivity.
    + simpl. apply (all_chars_impl is_digit); [|apply digits_of_uint].
      intros c Hc. now rewrite (is_digit_not_space c Hc).
Qed.

End PyStrFacts.

(** ** Escaping round trip *)

Module BatchingFacts.
Import PyStr Batching PyStrFacts.

#[local] Arguments replace : simpl never.

(** *** Unfolding [replace] for patterns of one and two characters *)

Lemma replace1_nil a new : replace (String a "") new "" = "".
Proof. reflexivity. Qed.

Lemma replace1_cons a new c r :
  replace (String a "") new (String c r)
  = if Ascii.eqb c a then new +:+ replace (String a "") new r
    else String c (replace (String a "") new r).
Proof.
  unfold replace. simpl. rewrite (Ascii.eqb_sym c a).
  destruct (Ascii.eqb_spec a c) as [->|Hne].
  - destruct (ascii_dec c c) as [_|Hn]; [|congruence].
    destruct r; reflexivity.
  - destruct (ascii_dec a c) as [He|_]; [congruence | reflexivity].
Qed.

Lemma replace1_app a new s t :
  replace (String a "") new (s +:+ t)
  = replace (String a "") new s +:+ replace (String a "") new t.
Proof.
  induction s as [|c s IH]; [reflexivity|].
  change (String c s +:+ t) with (String c (s +:+ t)).
  rewrite !replace1_cons, IH.
  destruct (Ascii.eqb c a); [now rewrite app_assoc_s | reflexivity].
Qed.

Lemma replace2_nil a b new : replace (String a (String b "")) new "" = "".
Proof. reflexivity. Qed.

Lemma replace2_one a b new c :
  replace (String a (String b "")) new (String c "") = String c "".
Proof.
  unfold replace. simpl. destruct (ascii_dec a c); reflexivity.
Qed.

Lemma replace2_cons a b new c d r :
  replace (String a (String b "")) new (String c (String d r))
  = if Ascii.eqb c a && Ascii.eqb d b
    then new +:+ replace (String a (String b "")) new r
    else String c (replace (String a (String b "")) new (String d r)).
Proof.
  unfold replace. simpl.
  rewrite (Ascii.eqb_sym c a), (Ascii.eqb_sym d b).
  destruct (Ascii.eqb_spec a c) as [->|Hac].
  - destruct (ascii_dec c c) as [_|Hn]; [|congruence].
    destruct (Ascii.eqb_spec b d) as [->|Hbd].
    + destruct (ascii_dec d d) as [_|Hn]; [|congruence].
      destruct r; reflexivity.
    + destruct (ascii_dec b d) as [He|_]; [congruence | reflexivity].
  - destruct (ascii_dec a c) as [He|_]; [congruence | reflexivity].
Qed.

(** A character that does not start the pattern is copied. *)
Lemma replace2_skip a b new c s :
  c <> a ->
  replace (String a (String b "")) new (String c s)
  = String c (replace (String a (String b "")) new s).
Proof.
  intros Hne. destruct s as [|d r].
  - now rewrite replace2_one.
  - rewrite replace2_cons.
    destruct (Ascii.eqb_spec c a) as [He|_]; [congruence | reflexivity].
Qed.

(** *** Escaping builds the encoding *)

Lemma encode_cons sp c s : encode sp (String c s) = enc sp c +:+ encode sp s.
Proof. reflexivity. Qed.

Lemma escape_colons s : replace ":" "::" s = encode no_special s.
Proof.
  induction s as [|c s IH]; [reflexivity|].
  rewrite replace1_cons, IH, encode_cons. unfold enc, no_special.
  destruct (Ascii.eqb c ":"); reflexivity.
Qed.

Lemma escape_special sp a s :
  a <> ":"%char -> sp a = false ->
  replace (String a "") (String ":" (String a "")) (encode sp s)
  = encode (with_special sp a) s.
Proof.
  intros Ha Hsp. induction s as [|c s IH]; [reflexivity|].
  rewrite !encode_cons, replace1_app, IH. f_equal.
  unfold enc, with_special.
  destruct (Ascii.eqb_spec c ":") as [->|Hc].
  - rewrite !replace1_cons, replace1_nil.
    destruct (Ascii.eqb_spec ":"%char a) as [He|_]; [congruence | reflexivity].
  - destruct (Ascii.eqb_spec c a) as [->|Hca].
    + rewrite Hsp. simpl. rewrite replace1_cons, replace1_nil.
      now rewrite Ascii.eqb_refl.
    + rewrite orb_false_r. destruct (sp c).
      * rewrite !replace1_cons, replace1_nil.
        destruct (Ascii.eqb_spec ":"%char a) as [He|_]; [congruence|].
        destruct (Ascii.eqb_spec c a) as [He|_]; [congruence | reflexivity].
      * rewrite replace1_cons, replace1_nil.
        destruct (Ascii.eqb_spec c a) as [He|_]; [congruence | reflexivity].
Qed.

Lemma escapearg_encode s : escapearg s = encode sp3 s.
Proof.
  unfold escapearg. rewrite escape_colons.
  rewrite (escape_special no_special ","), (escape_special sp1 ";"),
    (escape_special sp2 "="); try reflexivity; discriminate.
Qed.

(** *** Unescaping peels the encoding *)

(** An encoding in which [a] is special never begins with a bare [a]. *)
Lemma encode_head sp a s :
  a <> ":"%char ->
  match encode (with_special sp a) s with
  | "" => True
  | String h _ => h <> a
  end.
Proof.
  intros Ha. destruct s as [|c s]; [exact I|].
  rewrite encode_cons. unfold enc, with_special.
  destruct (Ascii.eqb_spec c ":") as [->|Hc]; [simpl; congruence|].
  destruct (Ascii.eqb_spec c a) as [->|Hca].
  - rewrite orb_true_r. simpl. congruence.
  - rewrite orb_false_r. destruct (sp c); simpl; congruence.
Qed.

Lemma unescape_special sp a s :
  a <> ":"%char -> sp a = false ->
  replace (String ":" (String a "")) (String a "") (encode (with_special sp a) s)
  = encode sp s.
Proof.
  intros Ha Hsp. induction s as [|c s IH]; [reflexivity|].
  pose proof (encode_head sp a s Ha) as Hhd.
  rewrite !encode_cons. unfold enc at 1 2. unfold with_special at 1.
  destruct (Ascii.eqb_spec c ":") as [->|Hc].
  - simpl. destruct (encode (with_special sp a) s) as [|h t] eqn:E.
    + rewrite replace2_cons, replace2_nil.
      destruct (Ascii.eqb_spec ":"%char a) as [He|_]; [congruence|].
      simpl. rewrite replace2_nil in IH. now rewrite <- IH.
    + rewrite replace2_cons.
      destruct (Ascii.eqb_spec ":"%char a) as [He|_]; [congruence|].
      simpl. rewrite replace2_cons.
      destruct (Ascii.eqb_spec h a) as [He|_]; [congruence|].
      rewrite andb_false_r. now rewrite IH.
  - destruct (Ascii.eqb_spec c a) as [->|Hca].
    + rewrite Hsp. simpl. rewrite replace2_cons, !Ascii.eqb_refl. simpl.
      now rewrite IH.
    + rewrite orb_false_r. destruct (sp c); simpl.
      * rewrite replace2_cons.
        destruct (Ascii.eqb_spec c a) as [He|_]; [congruence|].
        rewrite andb_false_r.
        rewrite replace2_skip by assumption. now rewrite IH.
      * rewrite replace2_skip by assumption. now rewrite IH.
Qed.

Lemma unescape_colons s : replace "::" ":" (encode no_special s) = s.
Proof.
  induction s as [|c s IH]; [reflexivity|].
  rewrite encode_cons. unfold enc.
  destruct (Ascii.eqb_spec c ":") as [->|Hc]; simpl.
  - rewrite replace2_cons. simpl. now rewrite IH.
  - rewrite replace2_skip by assumption. now rewrite IH.
Qed.

Example escapearg_ex : escapearg "a:b,c;d=e" = "a::b:,c:;d:=e".
Proof. reflexivity. Qed.

Example unescapearg_ex : unescapearg ":::=" = ":=".
Proof. reflexivity. Qed.

(** C1: for every byte string [x], [unescapearg (escapearg x) = x]: the
    escaping of colon, comma, semicolon and equals sign followed by the
    unescaping is the identity. *)
Theorem C1_unescape_escape (x : string) :
  unescapearg (escapearg x) = x.
Proof.
  rewrite escapearg_encode. unfold unescapearg, sp3, sp2, sp1.
  rewrite (unescape_special _ "="), (unescape_special _ ";"),
    (unescape_special _ ","); try reflexivity; try discriminate.
  apply unescape_colons.
Qed.

End BatchingFacts.

(** ** The command state store *)

Module StateFacts.
Import PyStr PyStrFacts State.

Lemma cutline_version (z : Z) (rest : string) :
  cutline (fmt_d z +:+ nl +:+ rest) = (fmt_d z +:+ nl, rest).
Proof. apply cutline_app, fmt_d_no_nl. Qed.

Section WithCodec.
Context {V : Type} `{Codec V}.

Lemma save_int (self : cmdstate) (version : pyobj) (data : V) (r : repo) :
  isinstance_int version = true ->
  save self version data r
  = (Ok tt,
     vfs_write (fname self)
       (fmt_d (int_of version) +:+ nl +:+ join (streamencode data)) r).
Proof. intros Hv. unfold save. now rewrite Hv. Qed.

(** What [_read] does with the content of an existing file. *)
Lemma read_content (self : cmdstate) (r : repo) (line rest : string) :
  vfs r !! fname self = Some (line +:+ rest) ->
  cutline (line +:+ rest) = (line, rest) ->
  read self r
  = match pyint line with
    | None => Err (CorruptedState "unknown version of state file found")
    | Some _ =>
        match decodeall rest with
        | None => Err CBORDecodeError
        | Some [] => Err IndexError
        | Some (v :: _) => Ok v
        end
    end.
Proof.
  intros Hfile Hcut. unfold read, _read. now rewrite Hfile, Hcut.
Qed.

(** C9: [save] with a version that is not an integer raises
    ProgrammingError and leaves every file as it was; with an integer
    version it writes the record, the decimal version line followed by the
    encoded payload, under the slot's name and touches no other file. *)
Theorem C9_save_checks_version
    (self : cmdstate) (version : pyobj) (data : V) (r : repo) :
  (isinstance_int version = false ->
   save self version data r
   = (Err (ProgrammingError "version of state file should be an integer"), r))
  /\ (isinstance_int version = true ->
      exists r',
        save self version data r = (Ok tt, r')
        /\ vfs r' !! fname self
           = Some (fmt_d (int_of version) +:+ nl +:+ join (streamencode data))
        /\ forall other : string,
             other <> fname self -> vfs r' !! other = vfs r !! other).
Proof.
  split; intros Hv.
  - unfold save. now rewrite Hv.
  - eexists. split; [now apply save_int|]. split; simpl.
    + apply lookup_insert_eq.
    + intros other Hne. now apply lookup_insert_ne.
Qed.

(** C8: for every slot, integer version and payload that the codec
    decodes back from its own encoding, [save] followed by [read] returns
    the saved payload. *)
Theorem C8_save_read_roundtrip
    (self : cmdstate) (version : pyobj) (data : V) (r : repo)
    (Hversion : isinstance_int version = true)
    (Hcodec : decodeall (join (streamencode data)) = Some [data]) :
  exists r', save self version data r = (Ok tt, r') /\ read self r' = Ok data.
Proof.
  eexists. split; [now apply save_int|].
  rewrite (read_content _ _ (fmt_d (int_of version) +:+ nl)
             (join (streamencode data))).
  - now rewrite pyint_fmt_d, Hcodec.
  - simpl. rewrite lookup_insert_eq. now rewrite app_assoc_s.
  - rewrite app_assoc_s. apply cutline_version.
Qed.

(** C4, as amended: on an existing state file [read] raises CorruptedState
    when the first line is not a valid integer, and in no other case; when
    it is one and decoding the remainder yields at least one value, [read]
    returns the first value, whatever follows it. *)
Theorem C4_read_corrupted_iff_bad_version
    (self : cmdstate) (r : repo) (content : string)
    (Hfile : vfs r !! fname self = Some content) :
  (pyint (fst (cutline content)) = None ->
   read self r = Err (CorruptedState "unknown version of state file found"))
  /\ (forall (z : Z) (v : V) (vs : list V),
        pyint (fst (cutline content)) = Some z ->
        decodeall (snd (cutline content)) = Some (v :: vs) ->
        read self r = Ok v)
  /\ (forall msg : string,
        read self r = Err (CorruptedState msg) ->
        pyint (fst (cutline content)) = None).
Proof.
  unfold read, _read. rewrite Hfile.
  destruct (cutline content) as [line rest]. simpl.
  repeat split.
  - now intros ->.
  - intros z v vs -> ->. reflexivity.
  - intros msg. destruct (pyint line); [|reflexivity].
    destruct (decodeall rest) as [[|v vs]|]; discriminate.
Qed.

End WithCodec.

(** C9 at a byte string passed as version, and at version 1. *)
Lemma C9_witness :
  save Examples.slot (PyBytes "1") Examples.payload Examples.emptyrepo
  = (Err (ProgrammingError "version of state file should be an integer"),
     Examples.emptyrepo)
  /\ exists r',
       save Examples.slot (PyInt 1) Examples.payload Examples.emptyrepo
       = (Ok tt, r')
       /\ vfs r' !! "splitstate"
          = Some ("1" +:+ nl +:+ MiniCbor.encode Examples.payload +:+ "").
Proof.
  split.
  - apply (C9_save_checks_version Examples.slot (PyBytes "1")). reflexivity.
  - destruct (proj2 (C9_save_checks_version Examples.slot (PyInt 1)
                       Examples.payload Examples.emptyrepo) eq_refl)
      as (r' & Hsave & Hfile & _).
    exists r'. split; [exact Hsave | exact Hfile].
Defined.

Lemma C8_witness :
  exists r',
    save Examples.slot (PyInt 1) Examples.payload Examples.emptyrepo = (Ok tt, r')
    /\ read Examples.slot r' = Ok Examples.payload.
Proof.
  apply (C8_save_read_roundtrip Examples.slot (PyInt 1) Examples.payload
           Examples.emptyrepo); [reflexivity | vm_compute; reflexivity].
Defined.

(** C4 as stated fails: a state file whose remainder decodes to two values
    is read without error, the second value being dropped; and one whose
    remainder holds no value fails with IndexError, not CorruptedState. *)
Lemma C4_counterexample :
  (exists content : string,
     vfs Examples.tworepo !! fname Examples.slot = Some content
     /\ decodeall (snd (cutline content))
        = Some [MiniCbor.CUint 1; MiniCbor.CUint 2])
  /\ read Examples.slot Examples.tworepo = Ok (MiniCbor.CUint 1)
  /\ read Examples.slot Examples.barerepo = Err IndexError.
Proof.
  split; [|split]; [|vm_compute; reflexivity ..].
  eexists. split; [apply lookup_insert_eq | vm_compute; reflexivity].
Qed.

Lemma C4_witness :
  read Examples.slot Examples.tworepo = Ok (MiniCbor.CUint 1).
Proof.
  refine (proj1 (proj2 (C4_read_corrupted_iff_bad_version
                          Examples.slot Examples.tworepo _ _)) 1%Z _ _ _ _).
  - apply lookup_insert_eq.
  - vm_compute. reflexivity.
  - vm_compute. reflexivity.
Defined.

End StateFacts.

(** ** The registry of unfinished operations *)

Module RegistryFacts.
Import PyStr State.

Lemma addunfinished_other d states :
  _opname d <> "merge" -> addunfinished d states = d :: states.
Proof.
  intros Hd. unfold addunfinished.
  now destruct (String.eqb_spec (_opname d) "merge").
Qed.

Lemma addunfinished_merge d states :
  _opname d = "merge" -> addunfinished d states = (states ++ [d])%list.
Proof. intros Hd. unfold addunfinished. now rewrite Hd. Qed.

(** The registry keeps the other operations newest first, in front of the
    merge descriptors. *)
Lemma register_all_shape (regs start : list _statecheck) :
  register_all regs start
  = (rev (List.filter (fun d => negb (is_merge d)) regs) ++ start
       ++ List.filter is_merge regs)%list.
Proof.
  revert start. induction regs as [|d regs IH]; intros start; simpl.
  - now rewrite app_nil_r.
  - unfold register_all in *. simpl. rewrite IH.
    unfold addunfinished. fold (is_merge d).
    destruct (is_merge d); simpl.
    + now rewrite <- !app_assoc.
    + now rewrite <- !app_assoc.
Qed.

Lemma getrepostate_from_passed (l1 l2 : list _statecheck) skip r :
  Forall (passed skip r) l1 ->
  getrepostate_from (l1 ++ l2) skip r = getrepostate_from l2 skip r.
Proof.
  induction 1 as [|d l1 Hd _ IH]; simpl; [reflexivity|].
  destruct Hd as [Hd|Hd].
  - now rewrite bool_decide_eq_true_2.
  - rewrite Hd. now destruct (bool_decide (_opname d ∈ skip)).
Qed.

Lemma getrepostate_from_hit d (l : list _statecheck) skip r :
  _opname d ∉ skip -> isunfinished d r = true ->
  getrepostate_from (d :: l) skip r = Some (_opname d, statusmsg d).
Proof.
  intros Hs Hu. simpl. now rewrite bool_decide_eq_false_2, Hu.
Qed.

Example initial_states_ex :
  map _opname initial_states = ["bisect"; "update"]
  /\ initial_states
     = register_all
         [mkstatecheck "update" "updatestate" true false false false false
            "last update was interrupted"
            "use 'hg update' to get a consistent checkout"
            "To continue:    hg update" None None;
          mkstatecheck "bisect" "bisect.state" false true true false false
            "" ""
            ("To mark the changeset good:    hg bisect --good" +:+ nl +:+
             "To mark the changeset bad:     hg bisect --bad" +:+ nl +:+
             "To abort:                      hg bisect --reset" +:+ nl)
            None None] [].
Proof. split; reflexivity. Qed.

Example registry_ex :
  register_all [plain "x" "xstate"; plain "merge" ""; plain "y" "ystate"] []
  = [plain "y" "ystate"; plain "x" "xstate"; plain "merge" ""].
Proof. reflexivity. Qed.

(** C5: a descriptor other than merge is registered at the front and a
    merge descriptor at the end; so detection, which goes through the
    registry in order and passes over the names of the skip set, returns
    the most recently registered descriptor other than merge whose file
    exists, and returns nothing when no operation is pending. *)
Theorem C5_registry_precedence (regs : list _statecheck) (r : repo) :
  let skip : gset string := list_to_set (skipstates r) in
  (forall d states, _opname d <> "merge" ->
     addunfinished d states = d :: states)
  /\ (forall d states, _opname d = "merge" ->
        addunfinished d states = (states ++ [d])%list)
  /\ (forall older d newer,
        regs = (older ++ d :: newer)%list ->
        _opname d <> "merge" ->
        _opname d ∉ skip ->
        vfs_exists (_fname d) r = true ->
        Forall (fun e => _opname e <> "merge" ->
                         _opname e ∈ skip \/ vfs_exists (_fname e) r = false)
               newer ->
        getrepostate (register_all regs []) r = Some (_opname d, statusmsg d))
  /\ (Forall (passed skip r) regs ->
      getrepostate (register_all regs []) r = None).
Proof.
  intros skip. split; [exact addunfinished_other|].
  split; [exact addunfinished_merge|]. split.
  - intros older d newer -> Hd Hskip Hfile Hnewer.
    unfold getrepostate. fold skip. rewrite register_all_shape.
    rewrite List.filter_app, rev_app_distr. simpl.
    assert (Hnm : is_merge d = false).
    { unfold is_merge. now destruct (String.eqb_spec (_opname d) "merge"). }
    rewrite Hnm. simpl. rewrite <- !app_assoc.
    rewrite (getrepostate_from_passed (rev (List.filter _ newer))).
    + simpl. apply getrepostate_from_hit; [assumption|].
      unfold isunfinished.
      now destruct (String.eqb_spec (_opname d) "merge") as [He|_].
    + apply Forall_rev. clear -Hnewer.
      induction Hnewer as [|e newer He _ IH]; simpl; [constructor|].
      unfold is_merge at 1.
      destruct (String.eqb_spec (_opname e) "merge") as [Hm|Hm]; simpl;
        [exact IH|].
      constructor; [|exact IH].
      destruct (He Hm) as [Hs|Hf]; [now left | right].
      unfold isunfinished.
      now destruct (String.eqb_spec (_opname e) "merge") as [Hm'|_].
  - intros Hall. unfold getrepostate. fold skip. rewrite register_all_shape.
    simpl.
    rewrite <- (app_nil_r (_ ++ _)%list). rewrite getrepostate_from_passed;
      [reflexivity|].
    apply Forall_app. split.
    + apply Forall_rev. clear -Hall.
      induction Hall as [|e l He _ IH]; simpl; [constructor|].
      destruct (negb (is_merge e)); [constructor|]; assumption.
    + clear -Hall.
      induction Hall as [|e l He _ IH]; simpl; [constructor|].
      destruct (is_merge e); [constructor|]; assumption.
Qed.

(** C5 at x registered before y, the files of both being present. *)
Lemma C5_witness :
  getrepostate
    (register_all [plain "x" "xstate"; plain "y" "ystate"] []) Examples.xyrepo
  = Some ("y", statusmsg (plain "y" "ystate")).
Proof.
  apply (proj1 (proj2 (proj2
           (C5_registry_precedence
              [plain "x" "xstate"; plain "y" "ystate"] Examples.xyrepo)))
           [plain "x" "xstate"] (plain "y" "ystate") []).
  - reflexivity.
  - discriminate.
  - simpl. apply not_elem_of_empty.
  - reflexivity.
  - constructor.
Defined.

End RegistryFacts.

(** ** The SSH peer: worlds, forwarding and the doublepipe *)

Module SshFacts.
Import PyStr PyStrFacts SshPeer SshSpec.

Lemma getpipe_setpipe f p w : getpipe f (setpipe f p w) = p.
Proof. now destruct f. Qed.

Lemma getpipe_setpipe_ne f g p w :
  f <> g -> getpipe g (setpipe f p w) = getpipe g w.
Proof. destruct f, g; simpl; congruence. Qed.

Lemma ui_out_setpipe f p w : ui_out (setpipe f p w) = ui_out w.
Proof. now destruct f. Qed.

Lemma waits_setpipe f p w : waits (setpipe f p w) = waits w.
Proof. now destruct f. Qed.

Lemma getpipe_add_out f ms w : getpipe f (add_out ms w) = getpipe f w.
Proof. now destruct f. Qed.

Lemma add_out_nil w : add_out [] w = w.
Proof. unfold add_out. rewrite app_nil_r. now destruct w. Qed.

Lemma for_each_status (msgs : string -> list string) (ls : list string) w :
  for_each ls (fun l => ui_status (msgs l)) w
  = Ret tt (add_out (map (fun l => join (msgs l)) ls) w).
Proof.
  revert w. induction ls as [|l ls IH]; intros w.
  - simpl. unfold ret. now rewrite add_out_nil.
  - change (for_each (l :: ls) (fun l => ui_status (msgs l)) w)
      with (for_each ls (fun l => ui_status (msgs l))
              (add_out [join (msgs l)] w)).
    rewrite IH. unfold add_out. simpl. now rewrite <- app_assoc.
Qed.

(** *** _forwardoutput *)

Lemma readpipe_available p : fst (readpipe p) = available p.
Proof. unfold readpipe, available. simpl. now destruct (closed p). Qed.

Lemma available_after_readpipe p : available (snd (readpipe p)) = "".
Proof.
  unfold readpipe, available. simpl.
  destruct (closed p) eqn:E; simpl; rewrite ?E; [reflexivity|].
  now rewrite Nat.sub_diag.
Qed.

Lemma forwardoutput_spec side w :
  _forwardoutput side w = Ret tt (forwarded side w).
Proof.
  unfold _forwardoutput, forwarded, bind.
  pose proof (readpipe_available (getpipe side w)) as Hs.
  destruct (readpipe (getpipe side w)) as [s p]. simpl in Hs. subst s. simpl.
  destruct (available (getpipe side w)) as [|c s] eqn:E.
  - unfold ret, remote_lines. simpl. now rewrite add_out_nil.
  - simpl truthy. cbv iota.
    apply (for_each_status (fun l => ["remote: "; l; nl])).
Qed.

Lemma forwarded_other side f w :
  f <> side -> getpipe f (forwarded side w) = getpipe f w.
Proof.
  intros Hf. unfold forwarded.
  rewrite getpipe_add_out. now apply getpipe_setpipe_ne.
Qed.

Lemma forwarded_waits side w : waits (forwarded side w) = waits w.
Proof. unfold forwarded, add_out. simpl. apply waits_setpipe. Qed.

Lemma forwarded_forwards_all side w : forwards_all side w (forwarded side w).
Proof.
  unfold forwards_all. repeat split.
  - unfold forwarded, add_out. simpl. now rewrite ui_out_setpipe.
  - unfold forwarded. rewrite getpipe_add_out, getpipe_setpipe.
    apply available_after_readpipe.
  - intros f Hf. now apply forwarded_other.
Qed.

(** Forwarding again finds nothing. *)
Lemma forwards_all_again side w w' :
  forwards_all side w w' -> forwards_all side w (forwarded side w').
Proof.
  intros (Hout & Hav & Hoth).
  destruct (forwarded_forwards_all side w') as (Hout' & Hav' & Hoth').
  repeat split.
  - rewrite Hout', Hav, Hout. unfold remote_lines at 2. simpl.
    now rewrite app_nil_r.
  - exact Hav'.
  - intros f Hf. now rewrite Hoth', Hoth.
Qed.

(** *** The shortcut of doublepipe._call *)

Lemma call_shortcut main side c w :
  doublepipe.data_given_and_false c = true \/ closed (getpipe main w) = true ->
  doublepipe._call main side c w = Ret (Some "") (forwarded side w).
Proof.
  intros Hc. unfold doublepipe._call.
  assert (doublepipe.data_given_and_false c || closed (getpipe main w) = true)
    as -> by (destruct Hc as [-> | ->]; [reflexivity | apply orb_true_r]).
  unfold bind. now rewrite forwardoutput_spec.
Qed.

(** C10: on every doublepipe a write of empty data, a read of size 0, and
    any write, read or readline once the main pipe is closed, forward all
    the output available on the side pipe to the ui and return the empty
    string; the main pipe receives no call. *)
Theorem C10_doublepipe_shortcut (main side : fd) (w : world)
    (Hdistinct : main <> side) :
  (exists w', doublepipe.write main side "" w = Ret (Some "") w'
              /\ forwards_all side w w'
              /\ calls (getpipe main w') = calls (getpipe main w))
  /\ (exists w', doublepipe.read main side 0 w = Ret (Some "") w'
                 /\ forwards_all side w w'
                 /\ calls (getpipe main w') = calls (getpipe main w))
  /\ (closed (getpipe main w) = true ->
      forall (data : string) (size : Z),
        (exists w', doublepipe.write main side data w = Ret (Some "") w'
                    /\ forwards_all side w w'
                    /\ calls (getpipe main w') = calls (getpipe main w))
        /\ (exists w', doublepipe.read main side size w = Ret (Some "") w'
                       /\ forwards_all side w w'
                       /\ calls (getpipe main w') = calls (getpipe main w))
        /\ (exists w', doublepipe.readline main side w = Ret (Some "") w'
                       /\ forwards_all side w w'
                       /\ calls (getpipe main w') = calls (getpipe main w))).
Proof.
  pose proof (forwarded_forwards_all side w) as Hfw.
  assert (Hcalls : forall w', forwards_all side w w' ->
            calls (getpipe main w') = calls (getpipe main w)).
  { intros w' (_ & _ & Hoth). now rewrite (Hoth main Hdistinct). }
  split; [|split].
  - exists (forwarded side w). split; [|split]; auto.
    apply call_shortcut. now left.
  - exists (forwarded side w). split; [|split]; auto.
    unfold doublepipe.read, bind. rewrite call_shortcut by now left.
    reflexivity.
  - intros Hclosed data size. split; [|split].
    + exists (forwarded side w). split; [|split]; auto.
      apply call_shortcut. now right.
    + unfold doublepipe.read, bind. rewrite call_shortcut by now right.
      destruct (size =? 0)%Z; simpl.
      * exists (forwarded side w). split; [|split]; auto.
      * rewrite forwardoutput_spec.
        exists (forwarded side (forwarded side w)).
        pose proof (forwards_all_again side w _ Hfw). split; [|split]; auto.
    + exists (forwarded side w). split; [|split]; auto.
      apply call_shortcut. now right.
Qed.

Lemma C10_witness :
  exists w',
    doublepipe.read Stdout Stderr 0 Examples.liveworld = Ret (Some "") w'
    /\ forwards_all Stderr Examples.liveworld w'
    /\ calls (getpipe Stdout w') = calls (getpipe Stdout Examples.liveworld).
Proof.
  refine (proj1 (proj2
            (C10_doublepipe_shortcut Stdout Stderr Examples.liveworld _))).
  discriminate.
Defined.

(** *** Cleanup of the pipes *)

Lemma join_app (a b : list string) : join (a ++ b) = join a +:+ join b.
Proof.
  induction a as [|x a IH]; simpl; [reflexivity|].
  now rewrite IH, app_assoc_s.
Qed.




Lemma cleanuppipes_spec (w : world) :
  _cleanuppipes Stdout Stdin Stderr w = Ret tt (cleaned w).
Proof.
  unfold _cleanuppipes, cleaned, drained, bind, fclose, try_except. simpl.
  destruct (file_iter (stderr w)) as [[ls r] p] eqn:E. simpl.
  rewrite (for_each_status (fun l => ["remote: "; l])).
  assert (Hr : match r with
               | Ok _ => True
               | Err e => is_IOError_or_ValueError e = true
               end).
  { unfold file_iter in E. simpl in E.
    destruct (closed (stderr w)); [now inversion E|].
    destruct (linesplit (data (stderr w))) as [ls' tl].
    destruct (broken (stderr w)); now inversion E. }
  destruct r as [[]|e]; simpl.
  - reflexivity.
  - unfold raise. now rewrite Hr.
Qed.

Lemma cleaned_all_closed (w : world) : all_closed (cleaned w).
Proof. repeat split. Qed.




(** *** Blocking calls through a doublepipe *)

Lemma call_loop_ready env main side c w :
  main <> side -> 0 < ready_count env ->
  exists w1,
    doublepipe._call_loop main side c env w = doublepipe.invoke main c w1
    /\ (forall f, f <> side -> getpipe f w1 = getpipe f w)
    /\ ready_count (waits w1) + 1 = ready_count env.
Proof.
  intros Hms. revert w.
  induction env as [|e env IH]; intros w Hready; simpl in Hready; [lia|].
  simpl. destruct (doublepipe.wait_result e) as [mainready sideready].
  simpl in Hready. unfold bind.
  set (w0 := set_waits env w).
  assert (Hstep : exists wa,
             (if sideready then _forwardoutput side else ret tt) w0 = Ret tt wa
             /\ (forall f, f <> side -> getpipe f wa = getpipe f w)
             /\ waits wa = env).
  { destruct sideready.
    - exists (forwarded side w0). split; [apply forwardoutput_spec|]. split.
      + intros f Hf. rewrite forwarded_other by assumption. now destruct f.
      + now rewrite forwarded_waits.
    - exists w0. split; [reflexivity|]. split; [|reflexivity].
      intros f _. now destruct f. }
  destruct Hstep as (wa & -> & Hoth & Hwaits).
  destruct mainready.
  - exists wa. split; [reflexivity|]. split; [assumption|].
    rewrite Hwaits. simpl. lia.
  - destruct (IH wa) as (w1 & Hrun & Hoth1 & Hcount); [simpl in Hready; lia|].
    exists w1. split; [exact Hrun|]. split.
    + intros f Hf. now rewrite Hoth1, Hoth.
    + simpl. lia.
Qed.

Lemma call_blocking main side c w :
  main <> side ->
  doublepipe.data_given_and_false c = false ->
  closed (getpipe main w) = false ->
  0 < ready_count (waits w) ->
  exists w1,
    doublepipe._call main side c w = doublepipe.invoke main c w1
    /\ (forall f, f <> side -> getpipe f w1 = getpipe f w)
    /\ ready_count (waits w1) + 1 = ready_count (waits w).
Proof.
  intros Hms Hc Hopen Hready. unfold doublepipe._call.
  rewrite Hc, Hopen. simpl. now apply call_loop_ready.
Qed.

(** *** Reading and writing on file objects *)

Lemma has_nl_app (s rest : string) : has_nl (s +:+ String NL rest) = true.
Proof.
  unfold has_nl. induction s as [|c s IH]; simpl; [reflexivity|].
  now rewrite IH, orb_true_r.
Qed.

Lemma file_write_ok (s : string) (p : pipe) :
  closed p = false -> broken p = false ->
  exists p', file_write s p = (Ok tt, p')
             /\ written p' = written p +:+ s
             /\ closed p' = false /\ broken p' = false.
Proof.
  intros Hc Hb. unfold file_write. simpl. rewrite Hc, Hb.
  eexists. split; [reflexivity|]. now repeat split.
Qed.

Lemma file_readline_ok (s rest : string) (p : pipe) :
  closed p = false -> all_chars not_nl s = true ->
  data p = s +:+ nl +:+ rest ->
  exists p', file_readline p = (Ok (s +:+ nl), p')
             /\ data p' = rest /\ closed p' = false
             /\ calls p' = (calls p ++ [CReadline])%list.
Proof.
  intros Hc Hs Hd. unfold file_readline. simpl. rewrite Hc, Hd.
  change (s +:+ nl +:+ rest) with (s +:+ String NL rest).
  rewrite has_nl_app, cutline_app by assumption. simpl.
  eexists. split; [reflexivity|]. repeat split; simpl; [|assumption].
  rewrite Hd. change (s +:+ nl +:+ rest) with (s +:+ String NL rest).
  rewrite <- (sdrop_app (s +:+ nl) rest) at 2. now rewrite app_assoc_s.
Qed.

Lemma file_read_ok (b rest : string) (p : pipe) :
  closed p = false -> data p = b +:+ rest ->
  exists p', file_read (Z.of_nat (String.length b)) p = (Ok b, p')
             /\ data p' = rest /\ closed p' = false
             /\ calls p'
                = (calls p ++ [CRead (Z.of_nat (String.length b))])%list.
Proof.
  intros Hc Hd. unfold file_read. simpl. rewrite Hc, Hd, Nat2Z.id.
  assert ((0 <=? Z.of_nat (String.length b))%Z = true) as ->
    by (apply Z.leb_le; lia).
  assert ((String.length b <=? String.length (b +:+ rest))%nat = true) as ->
    by (apply Nat.leb_le; rewrite length_app_s; lia).
  simpl. rewrite stake_app.
  eexists. split; [reflexivity|]. repeat split; simpl; [|assumption].
  rewrite Hd. apply sdrop_app.
Qed.

(** *** The pipes of a peer *)

Lemma pipeo_write_ok (self : peer) (s : string) (n : nat) (w : world) :
  s <> "" -> closed (stdin w) = false -> broken (stdin w) = false ->
  can_io self (S n) w ->
  exists w',
    sshv1peer.pipeo_write self s w = Ret tt w'
    /\ written (stdin w') = written (stdin w) +:+ s
    /\ closed (stdin w') = false /\ broken (stdin w') = false
    /\ stdout w' = stdout w
    /\ can_io self n w'.
Proof.
  intros Hs Hc Hb Hio. unfold sshv1peer.pipeo_write, can_io in *.
  destruct (_autoreadstderr self).
  - destruct (call_blocking Stdin Stderr (doublepipe.Mwrite s) w)
      as (w1 & Hrun & Hoth & Hcount); try easy.
    { simpl. now destruct s. }
    { specialize (Hio eq_refl). lia. }
    unfold doublepipe.write, bind. rewrite Hrun. simpl.
    unfold bind, fwrite, on_pipe. simpl.
    pose proof (Hoth Stdin ltac:(discriminate)) as Hin.
    pose proof (Hoth Stdout ltac:(discriminate)) as Hout.
    simpl in Hin, Hout.
    destruct (file_write_ok s (stdin w1)) as (p' & -> & Hw & Hc' & Hb');
      [congruence .. |].
    eexists. split; [reflexivity|]. simpl.
    repeat split; try assumption; [congruence|].
    intros _. specialize (Hio eq_refl). lia.
  - unfold fwrite, on_pipe. simpl.
    destruct (file_write_ok s (stdin w)) as (p' & -> & Hw & Hc' & Hb');
      [assumption .. |].
    eexists. split; [reflexivity|]. simpl.
    repeat split; try assumption. discriminate.
Qed.

Lemma pipei_readline_ok (self : peer) (s rest : string) (n : nat) (w : world) :
  closed (stdout w) = false -> all_chars not_nl s = true ->
  data (stdout w) = s +:+ nl +:+ rest ->
  can_io self (S n) w ->
  exists w',
    sshv1peer.pipei_readline self w = Ret (s +:+ nl) w'
    /\ data (stdout w') = rest /\ closed (stdout w') = false
    /\ calls (stdout w') = (calls (stdout w) ++ [CReadline])%list
    /\ can_io self n w'.
Proof.
  intros Hc Hs Hd Hio. unfold sshv1peer.pipei_readline, can_io in *.
  destruct (_autoreadstderr self).
  - destruct (call_blocking Stdout Stderr doublepipe.Mreadline w)
      as (w1 & Hrun & Hoth & Hcount); try easy.
    { specialize (Hio eq_refl). lia. }
    unfold doublepipe.readline, bind. rewrite Hrun. simpl.
    unfold bind, freadline, on_pipe. simpl.
    pose proof (Hoth Stdout ltac:(discriminate)) as Hout. simpl in Hout.
    destruct (file_readline_ok s rest (stdout w1))
      as (p' & -> & Hd' & Hc' & Hcalls); [congruence .. |].
    eexists. split; [reflexivity|]. simpl.
    repeat split; try assumption; [congruence|].
    intros _. specialize (Hio eq_refl). lia.
  - unfold freadline, on_pipe. simpl.
    destruct (file_readline_ok s rest (stdout w))
      as (p' & -> & Hd' & Hc' & Hcalls); [assumption .. |].
    eexists. split; [reflexivity|]. simpl.
    repeat split; try assumption. discriminate.
Qed.

Lemma pipei_read_ok (self : peer) (b rest : string) (n : nat) (w : world) :
  b <> "" -> closed (stdout w) = false ->
  data (stdout w) = b +:+ rest ->
  can_io self (S n) w ->
  exists w',
    sshv1peer.pipei_read self (Z.of_nat (String.length b)) w = Ret b w'
    /\ data (stdout w') = rest /\ closed (stdout w') = false
    /\ can_io self n w'.
Proof.
  intros Hb Hc Hd Hio. unfold sshv1peer.pipei_read, can_io in *.
  assert (Hsize : (Z.of_nat (String.length b) =? 0)%Z = false).
  { apply Z.eqb_neq. destruct b; [congruence | simpl; lia]. }
  destruct (_autoreadstderr self).
  - destruct (call_blocking Stdout Stderr
                (doublepipe.Mread (Z.of_nat (String.length b))) w)
      as (w1 & Hrun & Hoth & Hcount); try easy.
    { specialize (Hio eq_refl). lia. }
    unfold doublepipe.read, bind. rewrite Hrun. simpl.
    unfold bind, fread, on_pipe. simpl.
    pose proof (Hoth Stdout ltac:(discriminate)) as Hout. simpl in Hout.
    destruct (file_read_ok b rest (stdout w1))
      as (p' & -> & Hd' & Hc' & Hcalls); [congruence .. |].
    simpl. rewrite Hsize. simpl.
    assert (negb (truthy b) = false) as -> by (now destruct b).
    simpl. eexists. split; [reflexivity|]. simpl.
    repeat split; try assumption.
    intros _. specialize (Hio eq_refl). lia.
  - unfold fread, on_pipe. simpl.
    destruct (file_read_ok b rest (stdout w))
      as (p' & -> & Hd' & Hc' & Hcalls); [assumption .. |].
    eexists. split; [reflexivity|]. simpl.
    repeat split; try assumption. discriminate.
Qed.

(** *** Frames *)

Lemma readerr_step (self : peer) (w : world) :
  (if _autoreadstderr self then sshv1peer._readerr self else ret tt) w
  = Ret tt (if _autoreadstderr self then forwarded Stderr w else w).
Proof.
  destruct (_autoreadstderr self); [apply forwardoutput_spec | reflexivity].
Qed.

Lemma writeframed_ok (self : peer) (b : string) (flush : bool) (w : world) :
  closed (stdin w) = false -> broken (stdin w) = false -> can_io self 2 w ->
  exists w',
    sshv1peer._writeframed self b flush w = Ret tt w'
    /\ written (stdin w') = written (stdin w) +:+ frame b.
Proof.
  intros Hc Hb Hio. unfold sshv1peer._writeframed, bind.
  destruct (pipeo_write_ok self
              (fmt_d (Z.of_nat (String.length b)) +:+ nl) 1 w)
    as (w1 & -> & Hw1 & Hc1 & Hb1 & _ & Hio1); try assumption.
  { pose proof (fmt_d_nonempty (Z.of_nat (String.length b))).
    destruct (fmt_d (Z.of_nat (String.length b))); [congruence | discriminate]. }
  assert (Hdata : exists w2,
            (if truthy b then sshv1peer.pipeo_write self b else ret tt) w1
            = Ret tt w2
            /\ written (stdin w2) = written (stdin w) +:+ frame b
            /\ closed (stdin w2) = false).
  { destruct b as [|c b'] eqn:Eb.
    - exists w1. split; [reflexivity|]. split; [|assumption].
      rewrite Hw1. unfold frame. now rewrite app_nil_r_s.
    - simpl truthy. cbv iota.
      destruct (pipeo_write_ok self (String c b') 0 w1)
        as (w2 & Hrun2 & Hw2 & Hc2 & _); try assumption; [discriminate|].
      exists w2. split; [exact Hrun2|]. split; [|assumption].
      rewrite Hw2, Hw1. unfold frame. now rewrite !app_assoc_s. }
  destruct Hdata as (w2 & -> & Hw2 & Hc2).
  assert (Hflush : exists w3,
            (if flush then sshv1peer.pipeo_flush self else ret tt) w2
            = Ret tt w3
            /\ written (stdin w3) = written (stdin w2)).
  { destruct flush; [|exists w2; now split].
    unfold sshv1peer.pipeo_flush, doublepipe.flush, fflush, on_pipe,
      file_flush. simpl.
    destruct (_autoreadstderr self); rewrite Hc2;
      eexists; split; reflexivity. }
  destruct Hflush as (w3 & -> & Hw3).
  rewrite readerr_step. eexists. split; [reflexivity|].
  rewrite <- Hw2, <- Hw3.
  destruct (_autoreadstderr self); [|reflexivity].
  now rewrite (forwarded_other Stderr Stdin) by discriminate.
Qed.

Lemma getamount_ok (self : peer) (z : Z) (rest : string) (n : nat) (w : world) :
  closed (stdout w) = false ->
  data (stdout w) = fmt_d z +:+ nl +:+ rest ->
  can_io self (S n) w ->
  exists w',
    sshv1peer._getamount self w = Ret z w'
    /\ data (stdout w') = rest /\ closed (stdout w') = false
    /\ calls (stdout w') = (calls (stdout w) ++ [CReadline])%list
    /\ can_io self n w'.
Proof.
  intros Hc Hd Hio. unfold sshv1peer._getamount, bind.
  destruct (pipei_readline_ok self (fmt_d z) rest n w)
    as (w1 & -> & Hd1 & Hc1 & Hcalls1 & Hio1); try assumption.
  { apply fmt_d_no_nl. }
  assert (String.eqb (fmt_d z +:+ nl) nl = false) as ->.
  { apply String.eqb_neq. pose proof (fmt_d_nonempty z).
    destruct (fmt_d z) as [|c [|d r]]; [congruence | discriminate ..]. }
  simpl. rewrite readerr_step, pyint_fmt_d.
  eexists. split; [reflexivity|].
  destruct (_autoreadstderr self).
  - rewrite (forwarded_other Stderr Stdout) by discriminate.
    repeat split; assumption.
  - repeat split; assumption.
Qed.

Lemma readframed_ok (self : peer) (b rest : string) (w : world) :
  closed (stdout w) = false ->
  data (stdout w) = frame b +:+ rest ->
  can_io self 2 w ->
  exists w',
    sshv1peer._readframed self w = Ret b w'
    /\ data (stdout w') = rest
    /\ (b = "" -> calls (stdout w') = (calls (stdout w) ++ [CReadline])%list).
Proof.
  intros Hc Hd Hio. unfold sshv1peer._readframed, bind.
  destruct (getamount_ok self (Z.of_nat (String.length b)) (b +:+ rest) 1 w)
    as (w1 & -> & Hd1 & Hc1 & Hcalls1 & Hio1); try assumption.
  { rewrite Hd. unfold frame. now rewrite !app_assoc_s. }
  destruct b as [|c b'] eqn:Eb.
  - simpl. exists w1. now repeat split.
  - assert ((Z.of_nat (String.length (String c b')) =? 0)%Z = false) as ->
      by (apply Z.eqb_neq; simpl; lia).
    destruct (pipei_read_ok self (String c b') rest 0 w1)
      as (w2 & -> & Hd2 & _); try assumption; [discriminate|].
    exists w2. repeat split; [assumption | discriminate].
Qed.

(** C6: for every byte string [b], the empty one included, and peers
    whose pipes are open and do not block: what [_writeframed] sends for
    [b] is the decimal length line followed by the bytes, and
    [_readframed] on a pipe holding it returns [b] and leaves what
    follows; for the empty string the only call the pipe receives is the
    readline of the length. *)
Theorem C6_frame_roundtrip
    (writer reader : peer) (b rest : string) (flush : bool) (ww wr : world)
    (Hwopen : closed (stdin ww) = false)
    (Hwok : broken (stdin ww) = false)
    (Hwio : can_io writer 2 ww)
    (Hropen : closed (stdout wr) = false)
    (Hrio : can_io reader 2 wr) :
  exists (ww' : world) (sent : string),
    sshv1peer._writeframed writer b flush ww = Ret tt ww'
    /\ written (stdin ww') = written (stdin ww) +:+ sent
    /\ sent = fmt_d (Z.of_nat (String.length b)) +:+ nl +:+ b
    /\ (data (stdout wr) = sent +:+ rest ->
        exists wr',
          sshv1peer._readframed reader wr = Ret b wr'
          /\ data (stdout wr') = rest
          /\ (b = "" ->
              calls (stdout wr') = (calls (stdout wr) ++ [CReadline])%list)).
Proof.
  destruct (writeframed_ok writer b flush ww) as (ww' & Hrun & Hsent);
    try assumption.
  exists ww', (frame b). split; [exact Hrun|]. split; [exact Hsent|].
  split; [reflexivity|].
  intros Hdata. now apply readframed_ok.
Qed.

Lemma C6_witness :
  exists ww',
    sshv1peer._writeframed Examples.apeer "hello" true Examples.liveworld
    = Ret tt ww'
    /\ written (stdin ww') = "5" +:+ nl +:+ "hello"
    /\ exists wr',
         sshv1peer._readframed Examples.apeer Examples.readworld
         = Ret "hello" wr'
         /\ data (stdout wr') = "0" +:+ nl.
Proof.
  destruct (C6_frame_roundtrip Examples.apeer Examples.apeer "hello"
              ("0" +:+ nl) true Examples.liveworld Examples.readworld)
    as (ww' & sent & Hrun & Hsent & -> & Hread);
    [reflexivity | reflexivity | intros _; simpl; lia | reflexivity
    | intros _; simpl; lia |].
  exists ww'. split; [exact Hrun|]. split; [exact Hsent|].
  destruct (Hread eq_refl) as (wr' & Hr & Hd & _).
  exists wr'. split; [exact Hr | exact Hd].
Defined.

End SshFacts.

(** ** The handshake *)

Module HandshakeFacts.
Import PyStr PyStrFacts SshPeer SshSpec SshFacts.

Lemma badresponse_spec {A} (cfg : config) (w : world) :
  @badresponse A cfg w = Exc (noresponse cfg) (forwarded Stderr w).
Proof. unfold badresponse, bind. now rewrite forwardoutput_spec. Qed.

(** *** Lines and the upgrade pattern *)

Lemma has_nl_cons c s : has_nl (String c s) = Ascii.eqb c NL || has_nl s.
Proof. unfold has_nl. simpl. now rewrite (Ascii.eqb_sym c NL). Qed.

Lemma is_line_spec (l : string) :
  is_line l = true ->
  exists s, l = s +:+ nl /\ all_chars not_nl s = true.
Proof.
  unfold is_line. intros Hl.
  assert (Hgen : forall l, has_nl l = true -> snd (cutline l) = "" ->
            exists s, l = s +:+ nl /\ all_chars not_nl s = true).
  { clear. induction l as [|c l IH]; [discriminate|].
    rewrite has_nl_cons. simpl. unfold not_nl.
    destruct (Ascii.eqb_spec c NL) as [->|Hc]; simpl.
    - intros _ ->. now exists "".
    - destruct (cutline l) as [l1 r1]. simpl. intros Hnl Hr.
      destruct (IH Hnl Hr) as (s & -> & Hs).
      exists (String c s). split; [reflexivity|]. simpl.
      destruct (Ascii.eqb_spec c NL); [congruence | exact Hs]. }
  destruct (cutline l) as [l1 r1] eqn:E.
  destruct r1; [|discriminate].
  apply andb_true_iff in Hl as [_ Hnl].
  apply Hgen; [assumption | now rewrite E].
Qed.

Lemma prefix_app (a b : string) : String.prefix a (a +:+ b) = true.
Proof.
  induction a as [|c a IH]; simpl; [now destruct b|].
  destruct (ascii_dec c c); [exact IH | congruence].
Qed.

Lemma upto_nl_line (v : string) :
  all_chars not_nl v = true -> upto_nl (v +:+ nl) = v.
Proof.
  induction v as [|c v IH]; simpl; [reflexivity|].
  intros [Hc Hv]%andb_true_iff. unfold not_nl in Hc.
  apply negb_true_iff in Hc. now rewrite Hc, IH.
Qed.

Lemma match_upgraded_line (cfg : config) (version : string) :
  all_chars not_nl version = true ->
  reupgraded_match (token cfg) (upgraded_line cfg version) = Some version.
Proof.
  intros Hv. unfold reupgraded_match, upgraded_line, startswith.
  set (pre := "upgraded " +:+ token cfg +:+ " ").
  assert (Hl : "upgraded " +:+ token cfg +:+ " " +:+ version +:+ nl
               = pre +:+ (version +:+ nl)).
  { unfold pre. now rewrite !app_assoc_s. }
  rewrite Hl, prefix_app, sdrop_app, upto_nl_line, sdrop_app by assumption.
  reflexivity.
Qed.

Lemma upgraded_line_eq (cfg : config) (version : string) :
  upgraded_line cfg version
  = ("upgraded " +:+ token cfg +:+ " " +:+ version) +:+ nl.
Proof. unfold upgraded_line. now rewrite !app_assoc_s. Qed.

Lemma upgraded_line_chars (cfg : config) (version : string) :
  all_chars not_nl (token cfg) = true ->
  all_chars not_nl version = true ->
  all_chars not_nl ("upgraded " +:+ token cfg +:+ " " +:+ version) = true.
Proof.
  intros Ht Hv. rewrite !all_chars_app, Ht, Hv. reflexivity.
Qed.

(** *** One round of the scan *)

Lemma scan_unfold cfg n protoname lines :
  scan cfg (S n) protoname lines
  = if negb (truthy (List.last lines "")) then badresponse cfg
    else
      step <- try_except
                (l <- freadline Stdout ;;
                 _forwardoutput Stderr ;;;
                 match reupgraded_match (token cfg) l with
                 | Some m1 => ret (Break m1)
                 | None =>
                     if String.eqb (List.last lines "") ("1" +:+ nl)
                        && String.eqb l nl
                     then ret (Break protoname)
                     else ret (Continue l)
                 end)
                is_IOError
                (badresponse cfg) ;;
      match step with
      | Break name => ret (name, lines)
      | Continue l => scan cfg n protoname (lines ++ [l])%list
      end.
Proof. reflexivity. Qed.

(** Reading a complete line [s] followed by a newline during the scan. *)
Lemma scan_round cfg n protoname lines (s X : string) (w : world) :
  closed (stdout w) = false ->
  truthy (List.last lines "") = true ->
  all_chars not_nl s = true ->
  data (stdout w) = s +:+ nl +:+ X ->
  exists w',
    data (stdout w') = X /\ closed (stdout w') = false
    /\ scan cfg (S n) protoname lines w
       = match reupgraded_match (token cfg) (s +:+ nl) with
         | Some m1 => Ret (m1, lines) w'
         | None =>
             if String.eqb (List.last lines "") ("1" +:+ nl)
                && String.eqb (s +:+ nl) nl
             then Ret (protoname, lines) w'
             else scan cfg n protoname (lines ++ [s +:+ nl])%list w'
         end.
Proof.
  intros Hc Ht Hs Hd.
  destruct (file_readline_ok s X (stdout w)) as (p' & Hrl & Hd' & Hc' & _);
    try assumption.
  exists (forwarded Stderr (setpipe Stdout p' w)).
  split; [exact Hd'|]. split; [exact Hc'|].
  rewrite scan_unfold, Ht. change (negb true) with false. cbv beta iota.
  unfold bind, try_except, freadline, on_pipe.
  change (getpipe Stdout w) with (stdout w). rewrite Hrl.
  cbv beta iota. rewrite forwardoutput_spec.
  destruct (reupgraded_match (token cfg) (s +:+ nl)); [reflexivity|].
  destruct (String.eqb (List.last lines "") ("1" +:+ nl)
            && String.eqb (s +:+ nl) nl); reflexivity.
Qed.

(** The stream has ended, or fails, where a line is expected. *)
Lemma scan_eof cfg n protoname lines (w : world) :
  closed (stdout w) = false ->
  truthy (List.last lines "") = true ->
  data (stdout w) = "" ->
  exists w', scan cfg (S n) protoname lines w = Exc (noresponse cfg) w'.
Proof.
  intros Hc Ht Hd.
  assert (Hrl : file_readline (stdout w)
                = (if broken (stdout w) then Err IOError else Ok "",
                   consume 0 (log CReadline (stdout w)))).
  { unfold file_readline. simpl. rewrite Hc, Hd. simpl.
    now destruct (broken (stdout w)). }
  destruct (broken (stdout w)); destruct n as [|n]; eexists;
    rewrite scan_unfold, Ht; change (negb true) with false; cbv beta iota;
    unfold bind, try_except, freadline, on_pipe;
    change (getpipe Stdout w) with (stdout w); rewrite Hrl; cbv beta iota.
  - simpl is_IOError. cbv iota. now rewrite badresponse_spec.
  - simpl is_IOError. cbv iota. now rewrite badresponse_spec.
  - rewrite forwardoutput_spec.
    change (reupgraded_match (token cfg) "") with (@None string).
    rewrite andb_false_r. cbv beta iota. unfold ret.
    simpl scan. apply badresponse_spec.
  - rewrite forwardoutput_spec.
    change (reupgraded_match (token cfg) "") with (@None string).
    rewrite andb_false_r. cbv beta iota. unfold ret.
    rewrite scan_unfold, last_last. simpl truthy.
    change (negb false) with true. cbv iota. apply badresponse_spec.
Qed.

(** *** Noise *)

Lemma scan_noise cfg (ls : list string) :
  forall n protoname lines X w,
    closed (stdout w) = false ->
    truthy (List.last lines "") = true ->
    noise cfg (List.last lines "") ls = true ->
    data (stdout w) = join ls +:+ X ->
    exists w',
      scan cfg (List.length ls + n) protoname lines w
      = scan cfg n protoname (lines ++ ls)%list w'
      /\ data (stdout w') = X /\ closed (stdout w') = false
      /\ truthy (List.last (lines ++ ls) "") = true.
Proof.
  induction ls as [|l ls IH]; intros n protoname lines X w Hc Ht Hn Hd.
  - exists w. rewrite app_nil_r. now repeat split.
  - simpl in Hn.
    apply andb_true_iff in Hn as [Hn Hrest].
    apply andb_true_iff in Hn as [Hn Hend].
    apply andb_true_iff in Hn as [Hline Hup].
    destruct (is_line_spec l Hline) as (s & -> & Hs).
    apply negb_true_iff in Hend.
    assert (Hnone : reupgraded_match (token cfg) (s +:+ nl) = None).
    { apply negb_true_iff, bool_decide_eq_false in Hup.
      destruct (reupgraded_match (token cfg) (s +:+ nl)); [|reflexivity].
      exfalso. apply Hup. eauto. }
    destruct (scan_round cfg (List.length ls + n) protoname lines s
                (join ls +:+ X) w) as (w1 & Hd1 & Hc1 & Hrun);
      try assumption.
    { rewrite Hd. simpl. now rewrite !app_assoc_s. }
    change (String "1" nl) with ("1" +:+ nl) in Hend.
    rewrite Hnone, Hend in Hrun.
    assert (Hlast : List.last (lines ++ [s +:+ nl]) "" = s +:+ nl)
      by apply last_last.
    destruct (IH n protoname (lines ++ [s +:+ nl])%list X w1)
      as (w' & Hrun' & Hd' & Hc' & Ht'); try assumption.
    { rewrite Hlast. now destruct s. }
    { now rewrite Hlast. }
    exists w'. rewrite <- app_assoc in Hrun', Ht'. simpl in Hrun', Ht'.
    split; [|now repeat split].
    simpl List.length. simpl Nat.add. now rewrite Hrun.
Qed.

Lemma noise_app cfg prev (a b : list string) :
  noise cfg prev (a ++ b) = true -> noise cfg prev a = true.
Proof.
  revert prev. induction a as [|l a IH]; intros prev; simpl; [reflexivity|].
  intros [Hl Hr]%andb_true_iff. rewrite Hl. simpl. now apply IH.
Qed.

Lemma join_firstn_skipn (n : nat) (ls : list string) :
  join ls = join (firstn n ls) +:+ join (skipn n ls).
Proof. now rewrite <- join_app, firstn_skipn. Qed.

(** C2: on every open response stream, and for a token without newline:
    whatever noise precedes it (complete lines, fewer than the noise
    budget), a line [upgraded <token> <version>] stops the scan with that
    version and leaves unread all that follows it; an empty line after a
    line holding 1 stops it with the version 1 name; and when the stream
    ends, or as many lines as the budget allows have been read, without
    either, the handshake fails with the no suitable response error. *)
Theorem C2_handshake_scan
    (cfg : config) (w : world) (ls : list string) (rest : string)
    (Htoken : all_chars not_nl (token cfg) = true)
    (Hopen : closed (stdout w) = false)
    (Hnoise : noise cfg "dummy" ls = true) :
  let lines := ([""; "dummy"] ++ ls)%list in
  let start := scan cfg max_noise (SSHV1 cfg) [""; "dummy"] in
  (forall version : string,
     List.length ls < max_noise ->
     all_chars not_nl version = true ->
     data (stdout w) = join ls +:+ upgraded_line cfg version +:+ rest ->
     exists w', start w = Ret (version, lines) w'
                /\ data (stdout w') = rest)
  /\ (List.length ls < max_noise ->
      List.last lines "" = "1" +:+ nl ->
      data (stdout w) = join ls +:+ nl +:+ rest ->
      exists w', start w = Ret (SSHV1 cfg, lines) w'
                 /\ data (stdout w') = rest)
  /\ (List.length ls < max_noise ->
      data (stdout w) = join ls ->
      exists w', start w = Exc (noresponse cfg) w')
  /\ (max_noise <= List.length ls ->
      data (stdout w) = join ls +:+ rest ->
      exists w', start w = Exc (noresponse cfg) w').
Proof.
  intros lines start. subst lines start.
  assert (Hsplit : List.length ls < max_noise ->
            max_noise = List.length ls + S (max_noise - List.length ls - 1))
    by (intros; lia).
  split; [|split; [|split]].
  - intros version Hlen Hv Hd.
    destruct (scan_noise cfg ls (S (max_noise - List.length ls - 1))
                (SSHV1 cfg) [""; "dummy"]
                (upgraded_line cfg version +:+ rest) w)
      as (w1 & Hrun & Hd1 & Hc1 & Ht1); try assumption; [reflexivity|].
    rewrite <- (Hsplit Hlen) in Hrun. rewrite Hrun.
    destruct (scan_round cfg (max_noise - List.length ls - 1) (SSHV1 cfg)
                ([""; "dummy"] ++ ls)%list
                ("upgraded " +:+ token cfg +:+ " " +:+ version) rest w1)
      as (w2 & Hd2 & _ & Hrun2); try assumption.
    { now apply upgraded_line_chars. }
    { rewrite Hd1, upgraded_line_eq. now rewrite !app_assoc_s. }
    exists w2. split; [|exact Hd2].
    rewrite Hrun2, <- upgraded_line_eq, match_upgraded_line by assumption.
    reflexivity.
  - intros Hlen Hlast Hd.
    destruct (scan_noise cfg ls (S (max_noise - List.length ls - 1))
                (SSHV1 cfg) [""; "dummy"] (nl +:+ rest) w)
      as (w1 & Hrun & Hd1 & Hc1 & Ht1); try assumption; [reflexivity|].
    rewrite <- (Hsplit Hlen) in Hrun. rewrite Hrun.
    destruct (scan_round cfg (max_noise - List.length ls - 1) (SSHV1 cfg)
                ([""; "dummy"] ++ ls)%list "" rest w1)
      as (w2 & Hd2 & _ & Hrun2); try assumption; [reflexivity|].
    exists w2. split; [|exact Hd2]. rewrite Hrun2, Hlast. reflexivity.
  - intros Hlen Hd.
    destruct (scan_noise cfg ls (S (max_noise - List.length ls - 1))
                (SSHV1 cfg) [""; "dummy"] "" w)
      as (w1 & Hrun & Hd1 & Hc1 & Ht1); try assumption;
      [reflexivity | now rewrite app_nil_r_s |].
    rewrite <- (Hsplit Hlen) in Hrun. rewrite Hrun.
    now apply scan_eof.
  - intros Hlen Hd.
    destruct (scan_noise cfg (firstn max_noise ls) 0 (SSHV1 cfg)
                [""; "dummy"] (join (skipn max_noise ls) +:+ rest) w)
      as (w1 & Hrun & _); try assumption; [reflexivity | | |].
    { apply (noise_app cfg _ _ (skipn max_noise ls)).
      now rewrite firstn_skipn. }
    { rewrite Hd, (join_firstn_skipn max_noise ls). now rewrite app_assoc_s. }
    rewrite length_firstn, Nat.min_l, Nat.add_0_r in Hrun by assumption.
    rewrite Hrun. simpl. rewrite badresponse_spec. eauto.
Qed.

Lemma C2_witness :
  exists w',
    scan Examples.cfg0 max_noise "ssh-v1" [""; "dummy"] Examples.legacyworld
    = Ret ("ssh-v1", ([""; "dummy"] ++ Examples.legacylines)%list) w'
    /\ data (stdout w') = "".
Proof.
  refine (proj1 (proj2
            (C2_handshake_scan Examples.cfg0 Examples.legacyworld
               Examples.legacylines "" _ _ _)) _ _ _).
  - reflexivity.
  - reflexivity.
  - vm_compute. reflexivity.
  - unfold max_noise. simpl. lia.
  - reflexivity.
  - reflexivity.
Defined.

(** *** Capabilities *)

Lemma split_char_head (field tail : string) :
  all_chars not_colon field = true ->
  tail = "" \/ (exists t, tail = String ":" t) ->
  exists r, split_char ":" (field +:+ tail) = field :: r.
Proof.
  intros Hf Ht. induction field as [|c field IH]; simpl in *.
  - destruct Ht as [->|(t & ->)]; simpl; eauto.
  - apply andb_true_iff in Hf as [Hc Hf]. unfold not_colon in Hc.
    apply negb_true_iff in Hc. rewrite Hc.
    destruct (IH Hf) as (r & ->). eauto.
Qed.

Lemma caps_of_field (field tail : string) :
  all_chars not_colon field = true ->
  tail = "" \/ (exists t, tail = String ":" t) ->
  caps_of ("capabilities:" +:+ field +:+ tail) = Ok (split_ws field).
Proof.
  intros Hf Ht. unfold caps_of.
  destruct (split_char_head field tail Hf Ht) as (r & Hr).
  simpl. rewrite Hr. reflexivity.
Qed.

Lemma find_skip {A} (f : A -> bool) (a b : list A) :
  Forall (fun x => f x = false) a -> List.find f (a ++ b) = List.find f b.
Proof.
  induction 1 as [|x a Hx _ IH]; simpl; [reflexivity | now rewrite Hx].
Qed.

Lemma find_hit {A} (f : A -> bool) (x : A) (r : list A) :
  f x = true -> List.find f (x :: r) = Some x.
Proof. intros Hx. simpl. now rewrite Hx. Qed.

Lemma read_caps_legacy cfg (pre post : list string) (l field tail : string) w :
  startswith l "capabilities:" = true ->
  Forall (fun x => startswith x "capabilities:" = false) post ->
  butlast l = "capabilities:" +:+ field +:+ tail ->
  all_chars not_colon field = true ->
  tail = "" \/ (exists t, tail = String ":" t) ->
  read_caps cfg (SSHV1 cfg) (pre ++ l :: post)%list w
  = Ret (list_to_set (split_ws field)) w.
Proof.
  intros Hl Hpost Hb Hf Ht. unfold read_caps.
  rewrite String.eqb_refl, rev_app_distr.
  change (rev (l :: post)) with (rev post ++ [l])%list.
  rewrite <- app_assoc, find_skip by now apply Forall_rev.
  change ([l] ++ rev pre)%list with (l :: rev pre).
  rewrite find_hit by assumption. unfold bind.
  rewrite Hb, caps_of_field by assumption. reflexivity.
Qed.




(** *** The handshake never blocks *)

Lemma noblock_ret {A} (a : A) : noblock (ret a).
Proof. intros w. discriminate. Qed.

Lemma noblock_raise {A} (e : exn) : noblock (@raise A e).
Proof. intros w. discriminate. Qed.

Lemma noblock_bind {A B} (m : M A) (k : A -> M B) :
  noblock m -> (forall a, noblock (k a)) -> noblock (bind m k).
Proof.
  intros Hm Hk w. unfold bind. specialize (Hm w).
  destruct (m w) as [a w1|e w1|]; [apply Hk | discriminate | congruence].
Qed.

Lemma noblock_try {A} (m h : M A) handles :
  noblock m -> noblock h -> noblock (try_except m handles h).
Proof.
  intros Hm Hh w. unfold try_except. specialize (Hm w).
  destruct (m w) as [a w1|e w1|]; [discriminate | | congruence].
  destruct (handles e); [apply Hh | discriminate].
Qed.

Lemma noblock_on_pipe {A} f (op : pipe -> res A * pipe) : noblock (on_pipe f op).
Proof.
  intros w. unfold on_pipe. destruct (op (getpipe f w)) as [[a|e] p];
    discriminate.
Qed.

Lemma noblock_forwardoutput f : noblock (_forwardoutput f).
Proof. intros w. rewrite forwardoutput_spec. discriminate. Qed.

Lemma noblock_badresponse {A} cfg : noblock (@badresponse A cfg).
Proof. intros w. rewrite badresponse_spec. discriminate. Qed.

Lemma noblock_if {A} (b : bool) (m1 m2 : M A) :
  noblock m1 -> noblock m2 -> noblock (if b then m1 else m2).
Proof. now destruct b. Qed.

Lemma noblock_freadline f : noblock (freadline f).
Proof. apply noblock_on_pipe. Qed.

Lemma noblock_fread f n : noblock (fread f n).
Proof. apply noblock_on_pipe. Qed.

Lemma noblock_fwrite f s : noblock (fwrite f s).
Proof. apply noblock_on_pipe. Qed.

Lemma noblock_fflush f : noblock (fflush f).
Proof. apply noblock_on_pipe. Qed.

Lemma noblock_lift_res {A} (r : res A) : noblock (lift_res r).
Proof. destruct r; intros w; discriminate. Qed.

Create HintDb noblock.
#[local] Hint Resolve noblock_ret noblock_raise noblock_freadline
  noblock_fread noblock_fwrite noblock_fflush noblock_lift_res
  noblock_forwardoutput noblock_badresponse : noblock.

Ltac noblock_step :=
  first [ solve [auto with noblock]
        | apply noblock_bind; [|intros ?]
        | apply noblock_try
        | apply noblock_if ].

Lemma noblock_scan cfg n : forall protoname lines,
  noblock (scan cfg n protoname lines).
Proof.
  induction n as [|n IH]; intros protoname lines.
  - simpl. auto with noblock.
  - rewrite scan_unfold. repeat noblock_step.
    + destruct (reupgraded_match (token cfg) a); repeat noblock_step.
    + destruct a; [auto with noblock | apply IH].
Qed.

Lemma noblock_read_caps cfg protoname lines :
  noblock (read_caps cfg protoname lines).
Proof.
  unfold read_caps.
  repeat noblock_step.
  - destruct (List.find _ _); repeat noblock_step.
  - destruct (pyint a); auto with noblock.
Qed.

#[local] Hint Resolve noblock_scan noblock_read_caps : noblock.





End HandshakeFacts.

(** ** More on the escaping of batch arguments *)

Module BatchingMore.
Import PyStr Batching PyStrFacts BatchingFacts.

Lemma encode_app sp (a b : string) :
  encode sp (a +:+ b) = encode sp a +:+ encode sp b.
Proof.
  induction a as [|c a IH]; [reflexivity|].
  change (String c a +:+ b) with (String c (a +:+ b)).
  now rewrite !encode_cons, IH, app_assoc_s.
Qed.

Lemma sp3_is_sep c : sp3 c = is_sep c.
Proof. reflexivity. Qed.

Lemma enc_length c :
  String.length (enc sp3 c) = (if is_special c then 2 else 1)%nat.
Proof.
  unfold enc, is_special. rewrite sp3_is_sep.
  destruct (Ascii.eqb c ":"); [reflexivity|]. simpl.
  now destruct (is_sep c).
Qed.

Lemma unescapearg_escapearg (x : string) : unescapearg (escapearg x) = x.
Proof.
  rewrite escapearg_encode. unfold unescapearg, sp3, sp2, sp1.
  rewrite (unescape_special _ "="), (unescape_special _ ";"),
    (unescape_special _ ","); try reflexivity; try discriminate.
  apply unescape_colons.
Qed.

(** X1: [escapearg] maps different arguments to different escaped forms. *)
Theorem X1_escapearg_injective (x y : string) :
  escapearg x = escapearg y -> x = y.
Proof.
  intros H.
  rewrite <- (unescapearg_escapearg x), <- (unescapearg_escapearg y).
  now rewrite H.
Qed.

Lemma X1_witness : "a=b" = "a=b".
Proof. apply (X1_escapearg_injective "a=b" "a=b"). reflexivity. Defined.

(** X2: escaping goes through concatenation: the escaped form of [a]
    followed by [b] is the escaped form of [a] followed by that of [b]. *)
Theorem X2_escapearg_app (a b : string) :
  escapearg (a +:+ b) = escapearg a +:+ escapearg b.
Proof. rewrite !escapearg_encode. apply encode_app. Qed.

Lemma count_chars_le P (x : string) :
  (count_chars P x <= String.length x)%nat.
Proof. induction x as [|c x IH]; simpl; [lia|]. destruct (P c); lia. Qed.

Lemma encode_length (x : string) :
  String.length (encode sp3 x)
  = (String.length x + count_chars is_special x)%nat.
Proof.
  induction x as [|c x IH]; [reflexivity|].
  rewrite encode_cons, length_app_s, enc_length, IH. simpl.
  destruct (is_special c); lia.
Qed.

(** X3: the escaped form has one character more for each colon, comma,
    semicolon and equals sign of the argument, so its length lies between
    the length of the argument and twice that length. *)
Theorem X3_escapearg_length (x : string) :
  String.length (escapearg x)
  = (String.length x + count_chars is_special x)%nat
  /\ (String.length x <= String.length (escapearg x) <= 2 * String.length x)%nat.
Proof.
  rewrite escapearg_encode, encode_length.
  pose proof (count_chars_le is_special x). lia.
Qed.

(** X4: [escapearg] leaves an argument unchanged exactly when it holds
    none of the four characters. *)
Theorem X4_escapearg_fixed_iff (x : string) :
  escapearg x = x <-> all_chars (fun c => negb (is_special c)) x = true.
Proof.
  rewrite escapearg_encode. split.
  - intros Hfix. pose proof (encode_length x) as Hlen.
    rewrite Hfix in Hlen.
    assert (Hzero : count_chars is_special x = 0%nat) by lia.
    clear -Hzero. induction x as [|c x IH]; simpl in *; [reflexivity|].
    destruct (is_special c); simpl; [lia | now apply IH].
  - intros Hplain.
    induction x as [|c x IH]; [reflexivity|].
    simpl in Hplain. apply andb_true_iff in Hplain as [Hc Hx].
    rewrite encode_cons, (IH Hx). unfold enc. rewrite sp3_is_sep.
    unfold is_special in Hc. apply negb_true_iff, orb_false_iff in Hc.
    destruct Hc as [-> ->]. reflexivity.
Qed.

Lemma app_nil_inv (a : string) c b : "" <> a +:+ String c b.
Proof. destruct a; discriminate. Qed.

Lemma encode_guarded (x : string) :
  forall (a : string) (c : ascii) (b : string),
    encode sp3 x = a +:+ String c b -> is_sep c = true ->
    exists a', a = a' +:+ ":".
Proof.
  induction x as [|c0 x IH]; intros a c b Heq Hsep.
  - now apply app_nil_inv in Heq.
  - rewrite encode_cons in Heq. unfold enc in Heq. rewrite sp3_is_sep in Heq.
    destruct (Ascii.eqb_spec c0 ":") as [->|Hc0].
    + destruct a as [|a0 [|a1 a2]]; simpl in Heq; inversion Heq; subst.
      * discriminate.
      * discriminate.
      * match goal with
        | Ht : encode sp3 x = _ |- _ =>
            destruct (IH _ _ _ Ht Hsep) as (a' & ->)
        end.
        exists (String ":" (String ":" a')). reflexivity.
    + destruct (is_sep c0) eqn:Hs0.
      * destruct a as [|a0 [|a1 a2]]; simpl in Heq; inversion Heq; subst.
        -- discriminate.
        -- now exists "".
        -- match goal with
           | Ht : encode sp3 x = _ |- _ =>
               destruct (IH _ _ _ Ht Hsep) as (a' & ->)
           end.
           exists (String ":" (String a1 a')). reflexivity.
      * destruct a as [|a0 a2]; simpl in Heq; inversion Heq; subst.
        -- congruence.
        -- match goal with
           | Ht : encode sp3 x = _ |- _ =>
               destruct (IH _ _ _ Ht Hsep) as (a' & ->)
           end.
           exists (String a0 a'). reflexivity.
Qed.

(** X5: in an escaped argument every comma, semicolon and equals sign
    stands right after a colon: [escapearg] never leaves a separator of
    the batch syntax bare. *)
Theorem X5_escapearg_guards_separators (x a b : string) (c : ascii) :
  escapearg x = a +:+ String c b -> is_sep c = true ->
  exists a', a = a' +:+ ":".
Proof. rewrite escapearg_encode. apply encode_guarded. Qed.

Lemma X5_witness : exists a', "k:" = a' +:+ ":".
Proof.
  exact (X5_escapearg_guards_separators "k=v" "k:" "v" "=" eq_refl eq_refl).
Defined.

(** *** mangle and unmangle *)

Lemma ord_range c : (0 <= ord c < 256)%Z.
Proof. unfold ord. pose proof (N_ascii_bounded c). lia. Qed.

Lemma chr_ord c : chr (ord c) = Some c.
Proof.
  unfold chr. pose proof (ord_range c) as Hr.
  assert ((0 <=? ord c)%Z && (ord c <? 256)%Z = true) as ->
    by (apply andb_true_iff; split; [apply Z.leb_le | apply Z.ltb_lt]; lia).
  unfold ord. now rewrite N2Z.id, ascii_N_embedding.
Qed.

Lemma ord_chr n c : chr n = Some c -> ord c = n.
Proof.
  unfold chr, ord.
  destruct ((0 <=? n)%Z && (n <? 256)%Z) eqn:E; [|discriminate].
  apply andb_true_iff in E as [H0 H1].
  apply Z.leb_le in H0. apply Z.ltb_lt in H1.
  intros [= <-]. rewrite N_ascii_embedding by lia. lia.
Qed.

Lemma ord_255 c : ord c = 255%Z <-> c = "255"%char.
Proof.
  split; [|now intros ->].
  intros H. apply (f_equal chr) in H. rewrite chr_ord in H.
  now injection H.
Qed.

Lemma ord_0 c : ord c = 0%Z <-> c = "000"%char.
Proof.
  split; [|now intros ->].
  intros H. apply (f_equal chr) in H. rewrite chr_ord in H.
  now injection H.
Qed.

Lemma join_chars_inverse (f g : ascii -> option ascii) :
  (forall c c', f c = Some c' -> g c' = Some c) ->
  forall s t, join_chars f s = Some t -> join_chars g t = Some s.
Proof.
  intros Hfg. induction s as [|c s IH]; intros t; simpl.
  - now intros [= <-].
  - destruct (f c) as [c'|] eqn:Hc; [|discriminate].
    destruct (join_chars f s) as [r|]; [|discriminate].
    intros [= <-]. simpl. now rewrite (Hfg _ _ Hc), (IH r).
Qed.

Lemma join_chars_none (f : ascii -> option ascii) (bad : ascii) :
  (forall c, f c = None <-> c = bad) ->
  forall s, join_chars f s = None
            <-> all_chars (fun c => negb (Ascii.eqb c bad)) s = false.
Proof.
  intros Hbad. induction s as [|c s IH]; simpl; [easy|].
  destruct (Ascii.eqb_spec c bad) as [->|Hne]; simpl.
  - rewrite (proj2 (Hbad bad) eq_refl). easy.
  - destruct (f c) as [c'|] eqn:Hc.
    + rewrite <- IH. destruct (join_chars f s); easy.
    + now apply Hbad in Hc.
Qed.

(** X6: [mangle] fails exactly on the strings holding the byte 255 and
    [unmangle] exactly on those holding the byte 0; where one succeeds the
    other undoes it. *)
Theorem X6_mangle_unmangle (s : string) :
  (mangle s = None
   <-> all_chars (fun c => negb (Ascii.eqb c "255")) s = false)
  /\ (unmangle s = None
      <-> all_chars (fun c => negb (Ascii.eqb c "000")) s = false)
  /\ (forall t, mangle s = Some t -> unmangle t = Some s)
  /\ (forall t, unmangle s = Some t -> mangle t = Some s).
Proof.
  split; [|split; [|split]].
  - apply join_chars_none. intros c. rewrite <- ord_255. unfold chr.
    pose proof (ord_range c).
    destruct ((0 <=? ord c + 1)%Z && (ord c + 1 <? 256)%Z) eqn:E.
    + apply andb_true_iff in E as [_ E]. apply Z.ltb_lt in E.
      split; [discriminate | lia].
    + apply andb_false_iff in E as [E|E];
        [apply Z.leb_gt in E | apply Z.ltb_ge in E]; split; auto; lia.
  - apply join_chars_none. intros c. rewrite <- ord_0. unfold chr.
    pose proof (ord_range c).
    destruct ((0 <=? ord c - 1)%Z && (ord c - 1 <? 256)%Z) eqn:E.
    + apply andb_true_iff in E as [E _]. apply Z.leb_le in E.
      split; [discriminate | lia].
    + apply andb_false_iff in E as [E|E];
        [apply Z.leb_gt in E | apply Z.ltb_ge in E]; split; auto; lia.
  - apply join_chars_inverse. intros c c' Hc.
    apply ord_chr in Hc. rewrite Hc.
    replace (ord c + 1 - 1)%Z with (ord c) by lia. apply chr_ord.
  - apply join_chars_inverse. intros c c' Hc.
    apply ord_chr in Hc. rewrite Hc.
    replace (ord c - 1 + 1)%Z with (ord c) by lia. apply chr_ord.
Qed.

Example mangle_ex : mangle "One" = Some "Pof" /\ unmangle "Pof" = Some "One".
Proof. split; reflexivity. Qed.

End BatchingMore.

(** ** More on the command state store and the registry *)

Module StateMore.
Import PyStr PyStrFacts State StateFacts RegistryFacts.

Lemma repo_ext (r1 r2 : repo) :
  vfs r1 = vfs r2 -> parents r1 = parents r2 ->
  skipstates r1 = skipstates r2 -> r1 = r2.
Proof. destruct r1, r2. simpl. now intros -> -> ->. Qed.

Section WithCodec.
Context {V : Type} `{Codec V}.

(** X7: [delete] removes the state file and nothing else: afterwards the
    slot does not exist and [read] fails with IOError; deleting a slot
    that does not exist changes nothing and is no error, so [delete] may
    be repeated. *)
Theorem X7_delete (self : cmdstate) (r : repo) :
  exists_ self (delete self r) = false
  /\ read self (delete self r) = Err IOError
  /\ (forall other : string,
        other <> fname self ->
        vfs (delete self r) !! other = vfs r !! other)
  /\ (exists_ self r = false -> delete self r = r)
  /\ delete self (delete self r) = delete self r.
Proof.
  unfold exists_, delete, vfs_exists, vfs_unlink, read, _read. simpl.
  split; [|split; [|split; [|split]]].
  - apply bool_decide_eq_false. rewrite lookup_delete_eq.
    intros [x Hx]. discriminate.
  - now rewrite lookup_delete_eq.
  - intros other Hne. now apply lookup_delete_ne.
  - intros Hno. apply bool_decide_eq_false in Hno.
    apply repo_ext; simpl; try reflexivity.
    apply delete_id. destruct (vfs r !! fname self) eqn:E; [|reflexivity].
    exfalso. apply Hno. eauto.
  - apply repo_ext; simpl; try reflexivity. apply delete_delete_eq.
Qed.

(** X8: the last [save] wins: after two saves to one slot the slot exists
    and [read] returns the payload of the second, when the codec decodes
    that payload back from its encoding. *)
Theorem X8_save_overwrites
    (self : cmdstate) (v1 v2 : pyobj) (d1 d2 : V) (r : repo)
    (Hv1 : isinstance_int v1 = true) (Hv2 : isinstance_int v2 = true)
    (Hcodec : decodeall (join (streamencode d2)) = Some [d2]) :
  let r1 := snd (save self v1 d1 r) in
  let r2 := snd (save self v2 d2 r1) in
  fst (save self v2 d2 r1) = Ok tt
  /\ exists_ self r2 = true
  /\ read self r2 = Ok d2
  /\ r2 = snd (save self v2 d2 r).
Proof.
  intros r1 r2. subst r1 r2. rewrite !save_int by assumption. simpl.
  split; [reflexivity|]. split; [|split].
  - unfold exists_, vfs_exists. simpl. apply bool_decide_eq_true.
    rewrite lookup_insert_eq. eauto.
  - rewrite (read_content _ _ (fmt_d (int_of v2) +:+ nl)
               (join (streamencode d2))).
    + now rewrite pyint_fmt_d, Hcodec.
    + simpl. rewrite lookup_insert_eq. now rewrite app_assoc_s.
    + rewrite app_assoc_s. apply cutline_version.
  - apply repo_ext; simpl; try reflexivity. apply insert_insert_eq.
Qed.

(** X9: the version given to [save] has no influence on what [read]
    returns: it is written and checked to be an integer, but neither
    compared nor returned. *)
Theorem X9_read_ignores_version
    (self : cmdstate) (v1 v2 : pyobj) (d : V) (r : repo)
    (Hv1 : isinstance_int v1 = true) (Hv2 : isinstance_int v2 = true) :
  read self (snd (save self v1 d r)) = read self (snd (save self v2 d r)).
Proof.
  rewrite !save_int by assumption. simpl.
  rewrite (read_content _ _ (fmt_d (int_of v1) +:+ nl) (join (streamencode d))),
    (read_content _ _ (fmt_d (int_of v2) +:+ nl) (join (streamencode d))).
  - now rewrite !pyint_fmt_d.
  - simpl. rewrite lookup_insert_eq. now rewrite app_assoc_s.
  - rewrite app_assoc_s. apply cutline_version.
  - simpl. rewrite lookup_insert_eq. now rewrite app_assoc_s.
  - rewrite app_assoc_s. apply cutline_version.
Qed.

End WithCodec.

Lemma X8_witness :
  read Examples.slot
    (snd (save Examples.slot (PyInt 2) Examples.payload
            (snd (save Examples.slot (PyInt 1) (MiniCbor.CUint 7)
                    Examples.emptyrepo))))
  = Ok Examples.payload.
Proof.
  apply (X8_save_overwrites Examples.slot (PyInt 1) (PyInt 2)
           (MiniCbor.CUint 7) Examples.payload Examples.emptyrepo);
    [reflexivity | reflexivity | vm_compute; reflexivity].
Defined.

Lemma X9_witness :
  read Examples.slot
    (snd (save Examples.slot (PyInt 1) Examples.payload Examples.emptyrepo))
  = read Examples.slot
      (snd (save Examples.slot (PyBool true) Examples.payload
              Examples.emptyrepo)).
Proof.
  apply (X9_read_ignores_version Examples.slot (PyInt 1) (PyBool true));
    reflexivity.
Defined.

(** *** Detection *)

Lemma getrepostate_from_sound (states : list _statecheck) skip r name m :
  getrepostate_from states skip r = Some (name, m) ->
  exists before d after,
    states = (before ++ d :: after)%list
    /\ (name = _opname d) /\ (m = statusmsg d)
    /\ (_opname d ∉ skip) /\ (isunfinished d r = true)
    /\ Forall (passed skip r) before.
Proof.
  induction states as [|s states IH]; simpl; [discriminate|].
  destruct (bool_decide (_opname s ∈ skip)) eqn:Hs.
  - intros Hg. destruct (IH Hg) as (before & d & after & -> & Hrest).
    exists (s :: before), d, after. split; [reflexivity|].
    destruct Hrest as (? & ? & ? & ? & Hb). repeat split; try assumption.
    constructor; [|assumption]. left. now apply bool_decide_eq_true in Hs.
  - destruct (isunfinished s r) eqn:Hu.
    + intros [= <- <-]. exists [], s, states.
      apply bool_decide_eq_false in Hs. repeat split; auto.
    + intros Hg. destruct (IH Hg) as (before & d & after & -> & Hrest).
      exists (s :: before), d, after. split; [reflexivity|].
      destruct Hrest as (? & ? & ? & ? & Hb). repeat split; try assumption.
      constructor; [|assumption]. now right.
Qed.

(** X10: what detection reports is the name and status message of a
    registered descriptor that is unfinished and whose name is not in the
    skip set, every descriptor before it in the registry being skipped or
    finished; detection never reports a skipped or a finished
    operation. *)
Theorem X10_getrepostate_sound
    (states : list _statecheck) (r : repo) (name m : string) :
  let skip : gset string := list_to_set (skipstates r) in
  getrepostate states r = Some (name, m) ->
  exists before d after,
    states = (before ++ d :: after)%list
    /\ (name = _opname d) /\ (m = statusmsg d)
    /\ (_opname d ∉ skip)
    /\ (isunfinished d r = true)
    /\ Forall (passed skip r) before.
Proof. intros skip. apply getrepostate_from_sound. Qed.

Lemma X10_witness :
  exists before d after,
    register_all [plain "x" "xstate"; plain "y" "ystate"] []
    = (before ++ d :: after)%list
    /\ _opname d = "y".
Proof.
  destruct (X10_getrepostate_sound
              (register_all [plain "x" "xstate"; plain "y" "ystate"] [])
              Examples.xyrepo "y" (statusmsg (plain "y" "ystate")) eq_refl)
    as (before & d & after & Hs & Hn & _).
  exists before, d, after. split; [exact Hs | now rewrite <- Hn].
Defined.

(** X11: a merge is reported on the number of parents alone.  With fewer
    than two parents detection never answers merge, whatever files exist;
    with two it answers merge, without any file, as soon as a merge
    descriptor is registered, merge is not skipped and every other
    registered operation is skipped or finished. *)
Theorem X11_merge_detection (regs : list _statecheck) (r : repo) :
  let skip : gset string := list_to_set (skipstates r) in
  (parents r <= 1 ->
   forall m, getrepostate (register_all regs []) r <> Some ("merge", m))
  /\ (1 < parents r ->
      forall older d newer,
        regs = (older ++ d :: newer)%list ->
        _opname d = "merge" ->
        Forall (fun e => _opname e <> "merge") older ->
        _opname d ∉ skip ->
        Forall (fun e => _opname e <> "merge" -> passed skip r e) regs ->
        getrepostate (register_all regs []) r = Some ("merge", statusmsg d)).
Proof.
  intros skip. split.
  - intros Hp m Hg.
    destruct (getrepostate_from_sound _ _ _ _ _ Hg)
      as (_ & d & _ & _ & Hn & _ & _ & Hu & _).
    unfold isunfinished in Hu. rewrite <- Hn in Hu. simpl in Hu.
    apply Nat.ltb_lt in Hu. lia.
  - intros Hp older d newer -> Hd Hold Hskip Hall.
    unfold getrepostate. rewrite register_all_shape. simpl.
    rewrite getrepostate_from_passed.
    + rewrite List.filter_app. simpl.
      assert (List.filter is_merge older = []) as ->.
      { clear -Hold. induction Hold as [|e l He _ IH]; simpl; [reflexivity|].
        unfold is_merge at 1.
        now destruct (String.eqb_spec (_opname e) "merge"). }
      assert (is_merge d = true) as -> by (unfold is_merge; now rewrite Hd).
      simpl. rewrite <- Hd at 1. apply getrepostate_from_hit; [assumption|].
      unfold isunfinished. rewrite Hd. simpl. now apply Nat.ltb_lt.
    + apply Forall_rev. clear -Hall.
      induction Hall as [|e l He _ IH]; simpl; [constructor|].
      unfold is_merge at 1.
      destruct (String.eqb_spec (_opname e) "merge") as [Hm|Hm]; simpl;
        [exact IH|].
      constructor; [now apply He | exact IH].
Qed.

Lemma X11_witness :
  getrepostate
    (register_all [plain "x" "xstate"; plain "merge" ""; plain "y" "ystate"] [])
    Examples.mergerepo
  = Some ("merge", statusmsg (plain "merge" "")).
Proof.
  apply (proj2 (X11_merge_detection
                  [plain "x" "xstate"; plain "merge" ""; plain "y" "ystate"]
                  Examples.mergerepo) ltac:(simpl; lia)
           [plain "x" "xstate"] (plain "merge" "") [plain "y" "ystate"]).
  - reflexivity.
  - reflexivity.
  - repeat constructor. discriminate.
  - simpl. apply not_elem_of_empty.
  - constructor; [intros _; right; reflexivity|].
    constructor; [intros Hn; now elim Hn|].
    constructor; [intros _; right; reflexivity|]. constructor.
Defined.

End StateMore.

(** ** More on the SSH peer *)

Module SshMore.
Import PyStr PyStrFacts BatchingFacts SshPeer SshSpec SshFacts HandshakeFacts.

#[local] Arguments replace : simpl never.

(** *** _serverquote *)







(** *** Errors of _getamount *)

Lemma pipei_readline_any (self : peer) (n : nat) (w : world) :
  closed (stdout w) = false -> can_io self (S n) w ->
  exists w1,
    sshv1peer.pipei_readline self w = freadline Stdout w1
    /\ stdout w1 = stdout w.
Proof.
  intros Hc Hio. unfold sshv1peer.pipei_readline, can_io in *.
  destruct (_autoreadstderr self); [|now exists w].
  destruct (call_blocking Stdout Stderr doublepipe.Mreadline w)
    as (w1 & Hrun & Hoth & _); try easy.
  { specialize (Hio eq_refl). lia. }
  exists w1. split; [|exact (Hoth Stdout ltac:(discriminate))].
  unfold doublepipe.readline, bind. rewrite Hrun. simpl. unfold bind.
  now destruct (freadline Stdout w1).
Qed.

(** X13: when the line read where a length is expected is not a number,
    [_getamount], and so [_readframed], close the three pipes and raise:
    OutOfBandError for an empty line, ResponseError holding the line
    otherwise. *)
Theorem X13_getamount_aborts
    (self : peer) (s rest : string) (w : world)
    (Hopen : closed (stdout w) = false)
    (Hline : all_chars not_nl s = true)
    (Hdata : data (stdout w) = s +:+ nl +:+ rest)
    (Hio : can_io self 1 w)
    (Hbad : pyint (s +:+ nl) = None) :
  let error :=
    if String.eqb s "" then OutOfBandError "check previous remote output"
    else ResponseError "unexpected response:" (s +:+ nl) in
  exists w',
    sshv1peer._getamount self w = Exc error w'
    /\ sshv1peer._readframed self w = Exc error w'
    /\ all_closed w'.
Proof.
  intros error.
  destruct (pipei_readline_any self 0 w Hopen Hio) as (w1 & Hrun & Hout).
  destruct (file_readline_ok s rest (stdout w1)) as (p' & Hrl & _);
    [congruence | assumption | congruence |].
  assert (Hget : exists w',
            sshv1peer._getamount self w = Exc error w' /\ all_closed w').
  { unfold sshv1peer._getamount, bind. rewrite Hrun.
    unfold freadline, on_pipe. change (getpipe Stdout w1) with (stdout w1).
    rewrite Hrl. subst error.
    destruct s as [|c s'].
    - eexists. split; [|apply cleaned_all_closed].
      change ("" +:+ nl) with nl. change (String.eqb nl nl) with true.
      cbv beta iota. rewrite readerr_step.
      unfold sshv1peer._abort, sshv1peer._cleanup, bind.
      rewrite cleanuppipes_spec. reflexivity.
    - eexists. split; [|apply cleaned_all_closed].
      assert (String.eqb (String c s' +:+ nl) nl = false) as ->
        by (apply String.eqb_neq; destruct s'; discriminate).
      cbv beta iota. unfold ret at 1. rewrite readerr_step, Hbad.
      unfold sshv1peer._abort, sshv1peer._cleanup, bind.
      rewrite cleanuppipes_spec. reflexivity. }
  destruct Hget as (w' & Hget & Hclosed).
  exists w'. split; [exact Hget|]. split; [|exact Hclosed].
  unfold sshv1peer._readframed, bind. now rewrite Hget.
Qed.

Lemma X13_witness :
  exists w',
    sshv1peer._readframed Examples.apeer Examples.garbledworld
    = Exc (ResponseError "unexpected response:" ("oops" +:+ nl)) w'
    /\ all_closed w'.
Proof.
  destruct (X13_getamount_aborts Examples.apeer "oops" "more"
              Examples.garbledworld)
    as (w' & _ & Hrun & Hclosed);
    [reflexivity | reflexivity | reflexivity | intros _; simpl; lia
    | reflexivity |].
  exists w'. split; [exact Hrun | exact Hclosed].
Defined.

(** *** The blocking path of the doublepipe *)

Lemma side_progress_refl side w : side_progress side w w.
Proof. now left. Qed.

Lemma side_progress_forwarded side w : side_progress side w (forwarded side w).
Proof.
  right. destruct (forwarded_forwards_all side w) as (Hout & Hav & _).
  now split.
Qed.

Lemma side_progress_trans side w wa w1 :
  side_progress side w wa -> side_progress side wa w1 ->
  side_progress side w w1.
Proof.
  intros [[Ho Ha]|[Ho Ha]] [[Ho1 Ha1]|[Ho1 Ha1]].
  - left. split; congruence.
  - right. split; [|assumption]. rewrite Ho1, Ho, Ha. reflexivity.
  - right. split; congruence.
  - right. split; [|assumption]. rewrite Ho1, Ha, Ho.
    unfold remote_lines at 2. simpl. now rewrite app_nil_r.
Qed.

Lemma call_loop_progress env main side c w :
  main <> side -> 0 < ready_count env ->
  exists w1,
    doublepipe._call_loop main side c env w = doublepipe.invoke main c w1
    /\ (forall f, f <> side -> getpipe f w1 = getpipe f w)
    /\ side_progress side w w1.
Proof.
  intros Hms. revert w.
  induction env as [|e env IH]; intros w Hready; simpl in Hready; [lia|].
  simpl. destruct (doublepipe.wait_result e) as [mainready sideready].
  simpl in Hready. unfold bind.
  set (w0 := set_waits env w).
  assert (Hstep : exists wa,
             (if sideready then _forwardoutput side else ret tt) w0 = Ret tt wa
             /\ (forall f, f <> side -> getpipe f wa = getpipe f w)
             /\ side_progress side w wa).
  { destruct sideready.
    - exists (forwarded side w0). split; [apply forwardoutput_spec|]. split.
      + intros f Hf. rewrite forwarded_other by assumption. now destruct f.
      + pose proof (side_progress_forwarded side w0) as Hp.
        unfold side_progress in *.
        replace (ui_out w0) with (ui_out w) in Hp by reflexivity.
        replace (getpipe side w0) with (getpipe side w) in Hp
          by now destruct side.
        exact Hp.
    - exists w0. split; [reflexivity|]. split.
      + intros f _. now destruct f.
      + left. split; [reflexivity | now destruct side]. }
  destruct Hstep as (wa & -> & Hoth & Hprog).
  destruct mainready.
  - exists wa. now repeat split.
  - destruct (IH wa) as (w1 & Hrun & Hoth1 & Hprog1); [simpl in Hready; lia|].
    exists w1. split; [exact Hrun|]. split.
    + intros f Hf. now rewrite Hoth1, Hoth.
    + now apply (side_progress_trans side w wa w1).
Qed.

Lemma side_progress_setpipe main side p w w1 :
  main <> side -> side_progress side w w1 ->
  side_progress side w (setpipe main p w1).
Proof.
  intros Hms. unfold side_progress.
  now rewrite ui_out_setpipe, getpipe_setpipe_ne.
Qed.

Lemma file_read_eof (size : Z) (p : pipe) :
  size <> 0%Z -> closed p = false -> data p = "" -> broken p = false ->
  exists p', file_read size p = (Ok "", p').
Proof.
  intros Hs Hc Hd Hb. unfold file_read. simpl. rewrite Hc, Hd, Hb. simpl.
  destruct ((0 <=? size)%Z && (Z.to_nat size <=? 0)%nat) eqn:E; eauto.
  apply andb_true_iff in E as [E1 E2].
  apply Z.leb_le in E1. apply Nat.leb_le in E2. lia.
Qed.

(** X14: a read of a size other than 0 that finds the main pipe at end of
    file returns the empty string, and by then all the output that was
    available on the side pipe has gone to the ui and none is left,
    whether or not [_wait] reported the side pipe ready. *)
Theorem X14_read_at_eof_drains_side
    (main side : fd) (size : Z) (w : world)
    (Hdistinct : main <> side)
    (Hsize : size <> 0%Z)
    (Hopen : closed (getpipe main w) = false)
    (Heof : data (getpipe main w) = "")
    (Hok : broken (getpipe main w) = false)
    (Hready : 0 < ready_count (waits w)) :
  exists w',
    doublepipe.read main side size w = Ret (Some "") w'
    /\ ui_out w'
       = (ui_out w ++ remote_lines (available (getpipe side w)))%list
    /\ available (getpipe side w') = "".
Proof.
  assert (Hnz : (size =? 0)%Z = false) by now apply Z.eqb_neq.
  destruct (call_loop_progress (waits w) main side (doublepipe.Mread size) w)
    as (w1 & Hrun & Hoth & Hprog); try assumption.
  destruct (file_read_eof size (getpipe main w)) as (p' & Hread);
    try assumption.
  exists (forwarded side (setpipe main p' w1)).
  split.
  - unfold doublepipe.read, doublepipe._call, bind. simpl.
    rewrite Hnz, Hopen. simpl. rewrite Hrun. simpl.
    unfold bind, fread, on_pipe. rewrite (Hoth main Hdistinct), Hread.
    simpl. now rewrite forwardoutput_spec.
  - pose proof (side_progress_setpipe main side p' w w1 Hdistinct Hprog)
      as Hprog2.
    destruct (forwarded_forwards_all side (setpipe main p' w1))
      as (Hout & Hav & _).
    split; [|exact Hav]. rewrite Hout.
    destruct Hprog2 as [[Ho Ha]|[Ho Ha]]; rewrite Ho, Ha; [reflexivity|].
    unfold remote_lines at 2. simpl. now rewrite app_nil_r.
Qed.

Lemma X14_witness :
  exists w',
    doublepipe.read Stdout Stderr 4096 Examples.liveworld = Ret (Some "") w'
    /\ ui_out w' = ["remote: abort: no space left" +:+ nl]
    /\ available (getpipe Stderr w') = "".
Proof.
  destruct (X14_read_at_eof_drains_side Stdout Stderr 4096 Examples.liveworld)
    as (w' & Hrun & Hout & Hav);
    [discriminate | discriminate | reflexivity | reflexivity | reflexivity
    | simpl; lia |].
  exists w'. split; [exact Hrun|]. split; [|exact Hav].
  rewrite Hout. reflexivity.
Defined.

Lemma call_loop_blocked env main side c w :
  ready_count env = 0 ->
  doublepipe._call_loop main side c env w = Blocked.
Proof.
  revert w. induction env as [|e env IH]; intros w Hready; [reflexivity|].
  simpl in *. destruct (doublepipe.wait_result e) as [mainready sideready].
  simpl in Hready. destruct mainready; [lia|]. unfold bind.
  destruct sideready.
  - rewrite forwardoutput_spec. now apply IH.
  - simpl. now apply IH.
Qed.

Lemma invoke_one_call main c w1 :
  exists w',
    ((exists r, doublepipe.invoke main c w1 = Ret r w')
     \/ (exists e, doublepipe.invoke main c w1 = Exc e w'))
    /\ calls (getpipe main w')
       = (calls (getpipe main w1) ++ [call_of c])%list.
Proof.
  destruct c as [d|n|]; simpl; unfold bind, fwrite, fread, freadline, on_pipe.
  - destruct (file_write d (getpipe main w1)) as [r p] eqn:E.
    assert (Hcalls : calls p = (calls (getpipe main w1) ++ [CWrite d])%list).
    { unfold file_write in E. simpl in E.
      destruct (closed (getpipe main w1)); [now inversion E|].
      destruct (broken (getpipe main w1)); now inversion E. }
    destruct r as [[]|e]; eexists; (split; [eauto|]);
      now rewrite getpipe_setpipe.
  - destruct (file_read n (getpipe main w1)) as [r p] eqn:E.
    assert (Hcalls : calls p = (calls (getpipe main w1) ++ [CRead n])%list).
    { unfold file_read in E. simpl in E.
      destruct (closed (getpipe main w1)); [now inversion E|].
      destruct ((0 <=? n)%Z
                && (Z.to_nat n <=? String.length (data (getpipe main w1)))%nat);
        [now inversion E|].
      destruct (broken (getpipe main w1)); now inversion E. }
    destruct r as [r|e]; eexists; (split; [eauto|]);
      now rewrite getpipe_setpipe.
  - destruct (file_readline (getpipe main w1)) as [r p] eqn:E.
    assert (Hcalls : calls p = (calls (getpipe main w1) ++ [CReadline])%list).
    { unfold file_readline in E. simpl in E.
      destruct (closed (getpipe main w1)); [now inversion E|].
      destruct (has_nl (data (getpipe main w1))
                || negb (broken (getpipe main w1))); now inversion E. }
    destruct r as [r|e]; eexists; (split; [eauto|]);
      now rewrite getpipe_setpipe.
Qed.

(** X15: a call through a doublepipe that is not answered at once (data
    given and not empty or zero, main pipe open) blocks exactly when no
    round of [_wait] reports the main pipe ready; otherwise it ends,
    with the result or the exception of the method of the main pipe,
    which has received that one call and no other. *)
Theorem X15_call_blocks_iff_main_never_ready
    (main side : fd) (c : doublepipe.methcall) (w : world)
    (Hdistinct : main <> side)
    (Hdata : doublepipe.data_given_and_false c = false)
    (Hopen : closed (getpipe main w) = false) :
  (doublepipe._call main side c w = Blocked <-> ready_count (waits w) = 0)
  /\ (0 < ready_count (waits w) ->
      exists w',
        ((exists r, doublepipe._call main side c w = Ret r w')
         \/ (exists e, doublepipe._call main side c w = Exc e w'))
        /\ calls (getpipe main w')
           = (calls (getpipe main w) ++ [call_of c])%list).
Proof.
  assert (Hunfold : doublepipe._call main side c w
                    = doublepipe._call_loop main side c (waits w) w).
  { unfold doublepipe._call. now rewrite Hdata, Hopen. }
  assert (Hrun : 0 < ready_count (waits w) ->
            exists w',
              ((exists r, doublepipe._call main side c w = Ret r w')
               \/ (exists e, doublepipe._call main side c w = Exc e w'))
              /\ calls (getpipe main w')
                 = (calls (getpipe main w) ++ [call_of c])%list).
  { intros Hready.
    destruct (call_loop_progress (waits w) main side c w)
      as (w1 & Hloop & Hoth & _); try assumption.
    destruct (invoke_one_call main c w1) as (w' & Hres & Hcalls).
    exists w'. rewrite Hunfold, Hloop, <- (Hoth main Hdistinct).
    now split. }
  split; [|exact Hrun]. split.
  - intros Hblocked.
    destruct (ready_count (waits w)) eqn:E; [reflexivity|].
    destruct Hrun as (w' & [[r Hr]|[e He]] & _); [lia | congruence ..].
  - intros Hzero. rewrite Hunfold. now apply call_loop_blocked.
Qed.

Lemma X15_witness :
  exists w',
    doublepipe._call Stdout Stderr doublepipe.Mreadline Examples.readworld
    = Ret (Some ("5" +:+ nl)) w'
    /\ calls (stdout w') = [CReadline].
Proof.
  destruct (proj2 (X15_call_blocks_iff_main_never_ready Stdout Stderr
                     doublepipe.Mreadline Examples.readworld
                     ltac:(discriminate) eq_refl eq_refl)
              ltac:(simpl; lia))
    as (w' & Hres & Hcalls).
  exists w'. split; [|exact Hcalls].
  destruct Hres as [[r Hr]|[e He]].
  - rewrite Hr. vm_compute in Hr. now inversion Hr.
  - vm_compute in He. discriminate.
Defined.

(** *** What the handshake leaves alone *)

Lemma kept_refl w : kept w w.
Proof. now repeat split. Qed.

Lemma kept_trans w1 w2 w3 : kept w1 w2 -> kept w2 w3 -> kept w1 w3.
Proof. intros (? & ? & ?) (? & ? & ?). repeat split; congruence. Qed.

Lemma keeps_ret {A} (a : A) : keeps (ret a).
Proof. intros w. apply kept_refl. Qed.

Lemma keeps_raise {A} (e : exn) : keeps (@raise A e).
Proof. intros w. apply kept_refl. Qed.

Lemma keeps_bind {A B} (m : M A) (k : A -> M B) :
  keeps m -> (forall a, keeps (k a)) -> keeps (bind m k).
Proof.
  intros Hm Hk w. unfold bind. specialize (Hm w).
  destruct (m w) as [a w1|e w1|]; [|assumption|exact I].
  specialize (Hk a w1).
  destruct (k a w1); try exact I; now apply (kept_trans w w1).
Qed.

Lemma keeps_try {A} (m h : M A) handles :
  keeps m -> keeps h -> keeps (try_except m handles h).
Proof.
  intros Hm Hh w. unfold try_except. specialize (Hm w).
  destruct (m w) as [a w1|e w1|]; [assumption| |exact I].
  destruct (handles e); [|assumption].
  specialize (Hh w1).
  destruct (h w1); try exact I; now apply (kept_trans w w1).
Qed.

Lemma keeps_if {A} (b : bool) (m1 m2 : M A) :
  keeps m1 -> keeps m2 -> keeps (if b then m1 else m2).
Proof. now destruct b. Qed.

Lemma keeps_freadline : keeps (freadline Stdout).
Proof.
  intros w. unfold freadline, on_pipe, file_readline. simpl.
  destruct (closed (stdout w)) eqn:Hc; simpl; [now repeat split|].
  destruct (has_nl (data (stdout w)) || negb (broken (stdout w)));
    simpl; now repeat split.
Qed.

Lemma keeps_fread n : keeps (fread Stdout n).
Proof.
  intros w. unfold fread, on_pipe, file_read. simpl.
  destruct (closed (stdout w)) eqn:Hc; simpl; [now repeat split|].
  destruct ((0 <=? n)%Z && (Z.to_nat n <=? String.length (data (stdout w)))%nat);
    simpl; [now repeat split|].
  destruct (broken (stdout w)); simpl; now repeat split.
Qed.

Lemma keeps_forwardoutput : keeps (_forwardoutput Stderr).
Proof.
  intros w. rewrite forwardoutput_spec.
  unfold kept, forwarded, readpipe. simpl.
  destruct (closed (stderr w)) eqn:Hc; simpl; now repeat split.
Qed.

Lemma keeps_badresponse {A} cfg : keeps (@badresponse A cfg).
Proof.
  unfold badresponse. apply keeps_bind; [apply keeps_forwardoutput|].
  intros _. apply keeps_raise.
Qed.

Lemma keeps_lift_res {A} (r : res A) : keeps (lift_res r).
Proof. destruct r; [apply keeps_ret | apply keeps_raise]. Qed.

Create HintDb keeps.
#[local] Hint Resolve keeps_ret keeps_raise keeps_freadline keeps_fread
  keeps_forwardoutput keeps_badresponse keeps_lift_res : keeps.

Ltac keeps_step :=
  first [ solve [auto with keeps]
        | apply keeps_bind; [|intros ?]
        | apply keeps_try
        | apply keeps_if ].

Lemma keeps_scan cfg n : forall protoname lines,
  keeps (scan cfg n protoname lines).
Proof.
  induction n as [|n IH]; intros protoname lines.
  - simpl. auto with keeps.
  - rewrite scan_unfold. repeat keeps_step.
    + destruct (reupgraded_match (token cfg) a); repeat keeps_step.
    + destruct a; [auto with keeps | apply IH].
Qed.

Lemma keeps_read_caps cfg protoname lines :
  keeps (read_caps cfg protoname lines).
Proof.
  unfold read_caps. repeat keeps_step.
  - destruct (List.find _ _); repeat keeps_step.
  - destruct (pyint a); auto with keeps.
Qed.

Lemma keeps_check_caps cfg protoname caps :
  keeps (check_caps cfg protoname caps).
Proof. unfold check_caps. repeat keeps_step. Qed.

(** *** The handshake from end to end *)

Lemma send_handshake_ok cfg w :
  closed (stdin w) = false -> broken (stdin w) = false ->
  exists w1,
    send_handshake cfg w = Ret tt w1
    /\ written (stdin w1) = written (stdin w) +:+ join (handshake_request cfg)
    /\ closed (stdin w1) = false
    /\ stdout w1 = stdout w /\ stderr w1 = stderr w.
Proof.
  intros Hc Hb. unfold send_handshake, try_except, bind, fwrite, fflush, on_pipe.
  simpl.
  destruct (file_write_ok (join (handshake_request cfg)) (stdin w))
    as (p' & -> & Hw & Hc' & _); try assumption.
  simpl. unfold file_flush. simpl. rewrite Hc'. simpl.
  eexists. split; [reflexivity|]. now repeat split.
Qed.

Lemma scan_legacy cfg (ls : list string) (rest : string) w :
  closed (stdout w) = false ->
  noise cfg "dummy" ls = true ->
  List.length ls < max_noise ->
  List.last ([""; "dummy"] ++ ls) "" = "1" +:+ nl ->
  data (stdout w) = join ls +:+ nl +:+ rest ->
  exists w',
    scan cfg max_noise (SSHV1 cfg) [""; "dummy"] w
    = Ret (SSHV1 cfg, ([""; "dummy"] ++ ls)%list) w'
    /\ data (stdout w') = rest.
Proof.
  intros Hopen Hnoise Hlen Hlast Hd.
  destruct (scan_noise cfg ls (S (max_noise - List.length ls - 1))
              (SSHV1 cfg) [""; "dummy"] (nl +:+ rest) w)
    as (w1 & Hrun & Hd1 & Hc1 & Ht1); try assumption; [reflexivity|].
  replace (List.length ls + S (max_noise - List.length ls - 1))
    with max_noise in Hrun by lia.
  rewrite Hrun.
  destruct (scan_round cfg (max_noise - List.length ls - 1) (SSHV1 cfg)
              ([""; "dummy"] ++ ls)%list "" rest w1)
    as (w2 & Hd2 & _ & Hrun2); try assumption; [reflexivity|].
  exists w2. split; [|exact Hd2]. rewrite Hrun2, Hlast. reflexivity.
Qed.

Lemma scan_upgraded cfg (ls : list string) (version rest : string) w :
  all_chars not_nl (token cfg) = true ->
  closed (stdout w) = false ->
  noise cfg "dummy" ls = true ->
  List.length ls < max_noise ->
  all_chars not_nl version = true ->
  data (stdout w) = join ls +:+ upgraded_line cfg version +:+ rest ->
  exists w',
    scan cfg max_noise (SSHV1 cfg) [""; "dummy"] w
    = Ret (version, ([""; "dummy"] ++ ls)%list) w'
    /\ data (stdout w') = rest /\ closed (stdout w') = false.
Proof.
  intros Htoken Hopen Hnoise Hlen Hv Hd.
  destruct (scan_noise cfg ls (S (max_noise - List.length ls - 1))
              (SSHV1 cfg) [""; "dummy"]
              (upgraded_line cfg version +:+ rest) w)
    as (w1 & Hrun & Hd1 & Hc1 & Ht1); try assumption; [reflexivity|].
  replace (List.length ls + S (max_noise - List.length ls - 1))
    with max_noise in Hrun by lia.
  rewrite Hrun.
  destruct (scan_round cfg (max_noise - List.length ls - 1) (SSHV1 cfg)
              ([""; "dummy"] ++ ls)%list
              ("upgraded " +:+ token cfg +:+ " " +:+ version) rest w1)
    as (w2 & Hd2 & Hc2 & Hrun2); try assumption.
  { now apply upgraded_line_chars. }
  { rewrite Hd1, upgraded_line_eq. now rewrite !app_assoc_s. }
  exists w2. split; [|now split].
  rewrite Hrun2, <- upgraded_line_eq, match_upgraded_line by assumption.
  reflexivity.
Qed.

Lemma caps_nonempty (toks : list string) :
  toks <> [] -> (list_to_set toks : gset string) <> ∅.
Proof.
  destruct toks as [|t toks]; [congruence|]. intros _ Hempty.
  assert (Hin : t ∈ (list_to_set (t :: toks) : gset string)) by set_solver.
  rewrite Hempty in Hin. now apply not_elem_of_empty in Hin.
Qed.

Lemma check_caps_ok cfg protoname (caps : gset string) w :
  caps <> ∅ ->
  check_caps cfg protoname caps w = Ret (protoname, caps) (forwarded Stderr w).
Proof.
  intros Hne. unfold check_caps, bind.
  rewrite bool_decide_eq_false_2 by assumption.
  simpl. now rewrite forwardoutput_spec.
Qed.

(** The handshake, given what its scan and its reading of the
    capabilities do. *)
Lemma handshake_compose cfg w w1 w2 w3 protoname lines (caps : gset string) :
  send_handshake cfg w = Ret tt w1 ->
  scan cfg max_noise (SSHV1 cfg) [""; "dummy"] w1 = Ret (protoname, lines) w2 ->
  read_caps cfg protoname lines w2 = Ret caps w3 ->
  caps <> ∅ ->
  _performhandshake cfg w = Ret (protoname, caps) (forwarded Stderr w3)
  /\ kept w1 (forwarded Stderr w3).
Proof.
  intros Hsend Hscan Hcaps Hne. split.
  - unfold _performhandshake, bind. rewrite Hsend, Hscan. simpl.
    rewrite Hcaps. now apply check_caps_ok.
  - pose proof (keeps_scan cfg max_noise (SSHV1 cfg) [""; "dummy"] w1) as H12.
    rewrite Hscan in H12.
    pose proof (keeps_read_caps cfg protoname lines w2) as H23.
    rewrite Hcaps in H23.
    pose proof (keeps_forwardoutput w3) as H3.
    rewrite forwardoutput_spec in H3.
    eapply kept_trans; [exact H12|]. eapply kept_trans; eassumption.
Qed.

(** X16: against a server that speaks version 1 only, that is when after
    any noise the stream holds a capabilities line with at least one
    capability, then the line 1 and an empty line, [makepeer] sends the
    handshake request, returns a version 1 peer whose capabilities are
    those of the last capabilities line, leaves unread what follows the
    empty line, and leaves the three pipes open. *)
Theorem X16_makepeer_legacy
    (cfg : config) (path : string) (autoreadstderr : bool) (w : world)
    (ls pre post : list string) (l field tail rest : string)
    (Hin_open : closed (stdin w) = false)
    (Hin_ok : broken (stdin w) = false)
    (Hout_open : closed (stdout w) = false)
    (Herr_open : closed (stderr w) = false)
    (Hnoise : noise cfg "dummy" ls = true)
    (Hlen : List.length ls < max_noise)
    (Hlast : List.last ([""; "dummy"] ++ ls) "" = "1" +:+ nl)
    (Hdata : data (stdout w) = join ls +:+ nl +:+ rest)
    (Hlines : ([""; "dummy"] ++ ls = pre ++ l :: post)%list)
    (Hl : startswith l "capabilities:" = true)
    (Hpost : Forall (fun x => startswith x "capabilities:" = false) post)
    (Hfield : butlast l = "capabilities:" +:+ field +:+ tail)
    (Hnocolon : all_chars not_colon field = true)
    (Htail : tail = "" \/ (exists t, tail = String ":" t))
    (Hcaps : split_ws field <> []) :
  exists w',
    makepeer cfg path autoreadstderr w
    = Ret (mkpeer Sshv1peer path (list_to_set (split_ws field)) autoreadstderr)
          w'
    /\ written (stdin w') = written (stdin w) +:+ join (handshake_request cfg)
    /\ data (stdout w') = rest
    /\ closed (stdin w') = false
    /\ closed (stdout w') = false
    /\ closed (stderr w') = false.
Proof.
  destruct (send_handshake_ok cfg w Hin_open Hin_ok)
    as (w1 & Hsend & Hwritten & Hc1 & Hout1 & Herr1).
  destruct (scan_legacy cfg ls rest w1) as (w2 & Hscan & Hd2);
    try assumption; try congruence.
  pose proof (read_caps_legacy cfg pre post l field tail w2
                Hl Hpost Hfield Hnocolon Htail) as Hread.
  rewrite <- Hlines in Hread.
  destruct (handshake_compose cfg w w1 w2 w2 _ _ _ Hsend Hscan Hread
              (caps_nonempty _ Hcaps)) as [Hshake (Hk1 & Hk2 & Hk3)].
  exists (forwarded Stderr w2). split.
  - unfold makepeer, bind, except_reraise. rewrite Hshake.
    now rewrite String.eqb_refl.
  - rewrite Hk1, Hk2, Hk3, Hout1, Herr1.
    split; [assumption|]. split; [|now repeat split].
    change (stdout (forwarded Stderr w2))
      with (getpipe Stdout (forwarded Stderr w2)).
    rewrite forwarded_other by discriminate. exact Hd2.
Qed.

Lemma X16_witness :
  exists w',
    makepeer Examples.cfg0 "ssh://host/repo" true Examples.legacyworld
    = Ret (mkpeer Sshv1peer "ssh://host/repo" (list_to_set ["foo"; "bar"]) true)
          w'
    /\ data (stdout w') = ""
    /\ closed (stdin w') = false.
Proof.
  destruct (X16_makepeer_legacy Examples.cfg0 "ssh://host/repo" true
              Examples.legacyworld Examples.legacylines
              [""; "dummy"; "Welcome" +:+ nl; "0" +:+ nl; "25" +:+ nl]
              ["1" +:+ nl] ("capabilities: foo bar" +:+ nl) " foo bar" "" "")
    as (w' & Hrun & _ & Hd & Hc & _);
    try reflexivity.
  - unfold max_noise. simpl. lia.
  - repeat constructor.
  - now left.
  - discriminate.
  - exists w'. now repeat split.
Defined.

Lemma read_caps_upgraded cfg lines (blob field tail rest : string) (c : ascii) w :
  SSHV1 cfg <> SSHV2 cfg ->
  closed (stdout w) = false ->
  blob = "capabilities: " +:+ field +:+ tail ->
  all_chars not_colon field = true ->
  tail = "" \/ (exists t, tail = String ":" t) ->
  data (stdout w)
  = fmt_d (Z.of_nat (String.length blob)) +:+ nl +:+ blob +:+ String c rest ->
  exists w',
    read_caps cfg (SSHV2 cfg) lines w = Ret (list_to_set (split_ws field)) w'
    /\ data (stdout w') = rest.
Proof.
  intros Hv Hopen Hblob Hfield Htail Hd.
  unfold read_caps.
  assert (String.eqb (SSHV2 cfg) (SSHV1 cfg) = false) as ->
    by (apply String.eqb_neq; congruence).
  rewrite String.eqb_refl.
  destruct (file_readline_ok (fmt_d (Z.of_nat (String.length blob)))
              (blob +:+ String c rest) (stdout w) Hopen (fmt_d_no_nl _) Hd)
    as (p1 & Hr1 & Hd1 & Hc1 & _).
  destruct (file_read_ok blob (String c rest) p1 Hc1 Hd1)
    as (p2 & Hr2 & Hd2 & Hc2 & _).
  destruct (file_read_ok (String c "") rest p2 Hc2 Hd2)
    as (p3 & Hr3 & Hd3 & Hc3 & _).
  assert (Hstart : startswith blob "capabilities: " = true).
  { rewrite Hblob. apply (prefix_app "capabilities: "). }
  assert (Hcaps : caps_of blob = Ok (split_ws field)).
  { rewrite Hblob.
    apply (caps_of_field (String " " field) tail); [exact Hfield | exact Htail]. }
  exists (setpipe Stdout p3 (setpipe Stdout p2 (setpipe Stdout p1 w))).
  split; [|exact Hd3].
  unfold bind at 1. unfold freadline, on_pipe. simpl. rewrite Hr1. simpl.
  unfold bind at 1. rewrite pyint_fmt_d. simpl.
  unfold bind at 1. unfold fread, on_pipe. simpl. rewrite Hr2. simpl.
  unfold bind at 1. rewrite Hstart. simpl.
  unfold bind at 1. rewrite Hcaps. simpl.
  change (Z.of_nat (String.length (String c ""))) with 1%Z in Hr3.
  unfold bind at 1. simpl. rewrite Hr3. reflexivity.
Qed.

(** X17: against a server that accepts the upgrade, that is when after
    any noise the stream holds the acknowledgement of the upgrade for
    version 2, the decimal length of a value, a value [capabilities: ...]
    of that length with at least one capability and one more byte,
    [makepeer] sends the handshake request, returns a version 2 peer with
    the capabilities of the value, leaves unread what follows the byte,
    and leaves the three pipes open. *)
Theorem X17_makepeer_upgraded
    (cfg : config) (path : string) (autoreadstderr : bool) (w : world)
    (ls : list string) (blob field tail rest : string) (c : ascii)
    (Hversions : SSHV1 cfg <> SSHV2 cfg)
    (Htoken : all_chars not_nl (token cfg) = true)
    (Hv2 : all_chars not_nl (SSHV2 cfg) = true)
    (Hin_open : closed (stdin w) = false)
    (Hin_ok : broken (stdin w) = false)
    (Hout_open : closed (stdout w) = false)
    (Herr_open : closed (stderr w) = false)
    (Hnoise : noise cfg "dummy" ls = true)
    (Hlen : List.length ls < max_noise)
    (Hblob : blob = "capabilities: " +:+ field +:+ tail)
    (Hnocolon : all_chars not_colon field = true)
    (Htail : tail = "" \/ (exists t, tail = String ":" t))
    (Hcaps : split_ws field <> [])
    (Hdata : data (stdout w)
             = join ls +:+ upgraded_line cfg (SSHV2 cfg)
               +:+ fmt_d (Z.of_nat (String.length blob)) +:+ nl
               +:+ blob +:+ String c rest) :
  exists w',
    makepeer cfg path autoreadstderr w
    = Ret (mkpeer Sshv2peer path (list_to_set (split_ws field)) autoreadstderr)
          w'
    /\ written (stdin w') = written (stdin w) +:+ join (handshake_request cfg)
    /\ data (stdout w') = rest
    /\ closed (stdin w') = false
    /\ closed (stdout w') = false
    /\ closed (stderr w') = false.
Proof.
  destruct (send_handshake_ok cfg w Hin_open Hin_ok)
    as (w1 & Hsend & Hwritten & Hc1 & Hout1 & Herr1).
  destruct (scan_upgraded cfg ls (SSHV2 cfg)
              (fmt_d (Z.of_nat (String.length blob)) +:+ nl
               +:+ blob +:+ String c rest) w1)
    as (w2 & Hscan & Hd2 & Hc2); try assumption; try congruence.
  destruct (read_caps_upgraded cfg ([""; "dummy"] ++ ls)%list blob field tail
              rest c w2 Hversions Hc2 Hblob Hnocolon Htail Hd2)
    as (w3 & Hread & Hd3).
  destruct (handshake_compose cfg w w1 w2 w3 _ _ _ Hsend Hscan Hread
              (caps_nonempty _ Hcaps)) as [Hshake (Hk1 & Hk2 & Hk3)].
  exists (forwarded Stderr w3). split.
  - unfold makepeer, bind, except_reraise. rewrite Hshake.
    assert (String.eqb (SSHV2 cfg) (SSHV1 cfg) = false) as ->
      by (apply String.eqb_neq; congruence).
    now rewrite String.eqb_refl.
  - rewrite Hk1, Hk2, Hk3, Hout1, Herr1.
    split; [assumption|]. split; [|now repeat split].
    change (stdout (forwarded Stderr w3))
      with (getpipe Stdout (forwarded Stderr w3)).
    rewrite forwarded_other by discriminate. exact Hd3.
Qed.

Lemma X17_witness :
  exists w',
    makepeer Examples.cfg0 "ssh://host/repo" true Examples.upgradedworld
    = Ret (mkpeer Sshv2peer "ssh://host/repo" (list_to_set ["foo"; "bar"]) true)
          w'
    /\ data (stdout w') = ""
    /\ closed (stdin w') = false.
Proof.
  destruct (X17_makepeer_upgraded Examples.cfg0 "ssh://host/repo" true
              Examples.upgradedworld ["Welcome" +:+ nl]
              "capabilities: foo bar" "foo bar" "" "" NL)
    as (w' & Hrun & _ & Hd & Hc & _);
    try reflexivity.
  - discriminate.
  - unfold max_noise. simpl. lia.
  - now left.
  - discriminate.
  - exists w'. now repeat split.
Defined.

End SshMore.

(** ** The batch request: what the server reads is what the client wrote *)

Module BatchWireFacts.
Import PyStr Batching BatchWire PyStrFacts BatchingFacts BatchingMore.

Lemma split_char_nosep c s :
  all_chars (fun d => negb (Ascii.eqb d c)) s = true -> split_char c s = [s].
Proof.
  induction s as [|d s IH]; simpl; [reflexivity|].
  intros [Hd Hs]%andb_true_iff. apply negb_true_iff in Hd.
  now rewrite Hd, IH.
Qed.

Lemma split_char_app c s t :
  all_chars (fun d => negb (Ascii.eqb d c)) s = true ->
  split_char c (s +:+ String c t) = s :: split_char c t.
Proof.
  induction s as [|d s IH]; simpl; intros H.
  - now rewrite Ascii.eqb_refl.
  - apply andb_true_iff in H as [Hd Hs]. apply negb_true_iff in Hd.
    now rewrite Hd, IH.
Qed.

Lemma split_char_nonempty c s : split_char c s <> [].
Proof.
  destruct s as [|d s]; simpl; [discriminate|].
  destruct (Ascii.eqb d c); [discriminate|].
  destruct (split_char c s); discriminate.
Qed.

Lemma split_char_cons_length c d s :
  List.length (split_char c (String d s))
  = ((if Ascii.eqb d c then 1 else 0) + List.length (split_char c s))%nat.
Proof.
  simpl. destruct (Ascii.eqb d c); [reflexivity|].
  pose proof (split_char_nonempty c s).
  destruct (split_char c s); [congruence | reflexivity].
Qed.

Lemma join_sep_cons sep s s' r :
  join_sep sep (s :: s' :: r) = s +:+ sep +:+ join_sep sep (s' :: r).
Proof. reflexivity. Qed.

Lemma split_join c (l : list string) :
  l <> [] ->
  Forall (fun s => all_chars (fun d => negb (Ascii.eqb d c)) s = true) l ->
  split_char c (join_sep (String c "") l) = l.
Proof.
  induction l as [|s r IH]; [congruence|]. intros _ Hall.
  inversion Hall as [|? ? Hs Hr]; subst.
  destruct r as [|s' r'].
  - now apply split_char_nosep.
  - rewrite join_sep_cons.
    change (String c "" +:+ join_sep (String c "") (s' :: r'))
      with (String c (join_sep (String c "") (s' :: r'))).
    rewrite split_char_app by assumption.
    now rewrite IH.
Qed.

Lemma all_chars_join_sep P sep (l : list string) :
  all_chars P sep = true ->
  Forall (fun s => all_chars P s = true) l ->
  all_chars P (join_sep sep l) = true.
Proof.
  intros Hsep. induction l as [|s r IH]; [reflexivity|].
  intros Hall. inversion Hall as [|? ? Hs Hr]; subst.
  destruct r as [|s' r']; [assumption|].
  rewrite join_sep_cons, !all_chars_app, Hs, Hsep. simpl. now apply IH.
Qed.

Lemma split_first_app name args :
  all_chars (fun d => negb (Ascii.eqb d ":")) name = true ->
  split_first ":" (name +:+ String ":" args) = Some (name, args).
Proof.
  induction name as [|d s IH]; simpl; intros H; [reflexivity|].
  apply andb_true_iff in H as [Hd Hs]. apply negb_true_iff in Hd.
  now rewrite Hd, IH.
Qed.

(** The escaped form holds colons and the characters of the plain one. *)
Lemma all_chars_encode P sp (v : string) :
  P ":"%char = true ->
  all_chars P v = true -> all_chars P (encode sp v) = true.
Proof.
  intros Hcolon. induction v as [|c v IH]; [reflexivity|].
  rewrite encode_cons. intros H. simpl in H.
  apply andb_true_iff in H as [Hc Hv].
  rewrite all_chars_app, (IH Hv), andb_true_r.
  unfold enc. destruct (Ascii.eqb c ":"); [simpl; now rewrite Hcolon|].
  destruct (sp c); simpl; now rewrite ?Hcolon, Hc.
Qed.

Lemma sepfree_escapearg v : sepfree v = true -> sepfree (escapearg v) = true.
Proof.
  unfold sepfree. rewrite escapearg_encode.
  now apply all_chars_encode.
Qed.

Lemma sepfree_no c s :
  is_sep c = true ->
  sepfree s = true -> all_chars (fun d => negb (Ascii.eqb d c)) s = true.
Proof.
  intros Hc. apply all_chars_impl. intros d Hd.
  apply negb_true_iff. apply negb_true_iff in Hd.
  destruct (Ascii.eqb_spec d c); [congruence | reflexivity].
Qed.

Lemma truthy_app a c b : truthy (a +:+ String c b) = true.
Proof. now destruct a. Qed.

Section Server.
Variable call : string -> gmap string string -> res string.

Lemma batch_args_pieces (args : list (string * string)) :
  forall vals,
    forallb (fun nv => sepfree (fst nv) && sepfree (snd nv)) args = true ->
    batch_args (map (fun nv => fst nv +:+ "=" +:+ escapearg (snd nv)) args)
               vals
    = Ok (fold_left (fun m nv => <[fst nv := snd nv]> m) args vals).
Proof.
  induction args as [|[n v] args IH]; intros vals; [reflexivity|].
  simpl forallb. intros [[Hn Hv]%andb_true_iff Hargs]%andb_true_iff.
  simpl map. simpl fst. simpl snd.
  change (n +:+ "=" +:+ escapearg v) with (n +:+ String "=" (escapearg v)).
  simpl batch_args. rewrite truthy_app.
  rewrite split_char_app by now apply sepfree_no.
  rewrite split_char_nosep
    by (apply sepfree_no; [reflexivity | now apply sepfree_escapearg]).
  rewrite unescapearg_escapearg. now apply IH.
Qed.

Lemma batch_args_request (args : list (string * string)) :
  forallb (fun nv => sepfree (fst nv) && sepfree (snd nv)) args = true ->
  batch_args
    (split_char ","
       (join_sep "," (map (fun nv => fst nv +:+ "=" +:+ escapearg (snd nv))
                          args)))
    ∅
  = Ok (kwargs args).
Proof.
  intros Hargs. destruct args as [|a args]; [reflexivity|].
  rewrite split_join; [now apply batch_args_pieces | discriminate |].
  apply List.Forall_forall. intros x [nv [<- Hin]]%in_map_iff.
  assert (Hnv : sepfree (fst nv) && sepfree (snd nv) = true)
    by (eapply forallb_forall in Hargs; eassumption).
  apply andb_true_iff in Hnv as [Hn Hv].
  rewrite !all_chars_app.
  rewrite (sepfree_no "," (fst nv)), (sepfree_no "," (escapearg (snd nv)));
    try reflexivity; try assumption.
  now apply sepfree_escapearg.
Qed.

Lemma batch_pairs_cmds (cmds : list (string * list (string * string))) :
  forall acc,
    Forall (fun cmd => wellformed cmd = true) cmds ->
    batch_pairs call
      (map (fun cmd =>
              fst cmd +:+ ":"
              +:+ join_sep ","
                    (map (fun nv => fst nv +:+ "=" +:+ escapearg (snd nv))
                         (snd cmd)))
           cmds)
      acc
    = match call_all call cmds with
      | Ok outs => Ok (acc ++ map escapearg outs)%list
      | Err e => Err e
      end.
Proof.
  induction cmds as [|[name args] cmds IH]; intros acc Hwf.
  - simpl. now rewrite app_nil_r.
  - inversion Hwf as [|? ? Hcmd Hrest]; subst.
    unfold wellformed in Hcmd. simpl in Hcmd.
    apply andb_true_iff in Hcmd as [Hname Hargs].
    simpl map. simpl fst. simpl snd.
    change (name +:+ ":" +:+ ?x) with (name +:+ String ":" x).
    simpl batch_pairs. rewrite split_first_app.
    + rewrite batch_args_request by assumption.
      simpl call_all. destruct (call name (kwargs args)); [|reflexivity].
      rewrite IH by assumption.
      destruct (call_all call cmds); [|reflexivity].
      simpl. now rewrite <- app_assoc.
    + revert Hname. apply all_chars_impl. intros d Hd.
      apply negb_true_iff. apply negb_true_iff in Hd.
      now apply orb_false_iff in Hd as [-> _].
Qed.

Lemma batch_request (cmds : list (string * list (string * string))) :
  cmds <> [] ->
  Forall (fun cmd => wellformed cmd = true) cmds ->
  batch call (batchreq cmds)
  = match call_all call cmds with
    | Ok outs => Ok (join_sep ";" (map escapearg outs))
    | Err e => Err e
    end.
Proof.
  intros Hne Hwf. unfold batch, batchreq.
  rewrite split_join.
  - rewrite batch_pairs_cmds by assumption.
    now destruct (call_all call cmds).
  - now destruct cmds.
  - apply List.Forall_forall. intros x [[name args] [<- Hin]]%in_map_iff.
    rewrite List.Forall_forall in Hwf. specialize (Hwf _ Hin).
    unfold wellformed in Hwf. simpl in Hwf.
    apply andb_true_iff in Hwf as [Hname Hargs].
    simpl fst. simpl snd. rewrite !all_chars_app.
    apply andb_true_iff. split; [|apply andb_true_iff; split; [reflexivity|]].
    + revert Hname. apply all_chars_impl. intros d Hd.
      apply negb_true_iff. apply negb_true_iff in Hd.
      now apply orb_false_iff in Hd as [_ ->].
    + apply all_chars_join_sep; [reflexivity|].
      apply List.Forall_forall. intros y [nv [<- Hin']]%in_map_iff.
      assert (Hnv : sepfree (fst nv) && sepfree (snd nv) = true)
        by (eapply forallb_forall in Hargs; eassumption).
      apply andb_true_iff in Hnv as [Hn Hv].
      rewrite !all_chars_app.
      rewrite (sepfree_no ";" (fst nv)), (sepfree_no ";" (escapearg (snd nv)));
        try reflexivity; try assumption.
      now apply sepfree_escapearg.
Qed.

(** X18: for a batch of at least one call whose method names hold no colon
    or semicolon and whose argument names and values hold no comma,
    semicolon or equals sign, the server's [batch], given the request
    that [_submitbatch] builds, makes the client's calls in their order
    with the client's argument values, stops at the first that fails, and
    answers with the escaped results joined by semicolons.  When the
    transport hands the request to [batch] and no result holds a
    semicolon, [_submitbatch] yields one string for each call, and
    unescaping them gives the results. *)
Theorem X18_batch_roundtrip
    (_submitone : string -> list (string * string) -> res string)
    (cmds : list (string * list (string * string)))
    (Hne : cmds <> [])
    (Hwf : Forall (fun cmd => wellformed cmd = true) cmds) :
  batch call (batchreq cmds)
  = match call_all call cmds with
    | Ok outs => Ok (join_sep ";" (map escapearg outs))
    | Err e => Err e
    end
  /\ (forall outs,
        _submitone "batch" [("cmds", batchreq cmds)]
        = batch call (batchreq cmds) ->
        call_all call cmds = Ok outs ->
        Forall (fun o => all_chars (fun d => negb (Ascii.eqb d ";")) o = true)
               outs ->
        exists rs,
          _submitbatch _submitone cmds = Ok rs
          /\ List.length rs = List.length cmds
          /\ map unescapearg rs = outs).
Proof.
  split; [now apply batch_request|].
  intros outs Htransport Hcalls Houts.
  exists (map escapearg outs).
  unfold _submitbatch. rewrite Htransport, batch_request, Hcalls by assumption.
  assert (Hlen : List.length outs = List.length cmds).
  { clear - Hcalls. revert outs Hcalls.
    induction cmds as [|cmd r IH]; intros outs; simpl.
    - now intros [= <-].
    - destruct (call (fst cmd) (kwargs (snd cmd))); [|discriminate].
      destruct (call_all call r); [|discriminate].
      intros [= <-]. simpl. f_equal. now apply IH. }
  split; [|split].
  - f_equal. apply split_join.
    + destruct outs; [|discriminate]. destruct cmds; [congruence | discriminate].
    + apply List.Forall_forall. intros x [o [<- Hin]]%in_map_iff.
      rewrite List.Forall_forall in Houts. rewrite escapearg_encode.
      apply all_chars_encode; [reflexivity | now apply Houts].
  - now rewrite length_map.
  - rewrite map_map. rewrite <- (map_id outs) at 2.
    apply map_ext. intros o. apply unescapearg_escapearg.
Qed.

End Server.

Lemma X18_witness :
  batch Examples.wiremethods (batchreq Examples.twocalls)
  = Ok "Eins und 1::2;Hello:, you"
  /\ exists rs,
       _submitbatch Examples.directly Examples.twocalls = Ok rs
       /\ map unescapearg rs = ["Eins und 1:2"; "Hello, you"].
Proof.
  destruct (X18_batch_roundtrip Examples.wiremethods Examples.directly
              Examples.twocalls) as [Hbatch Hsubmit].
  - discriminate.
  - repeat constructor.
  - split.
    + rewrite Hbatch. vm_compute. reflexivity.
    + destruct (Hsubmit ["Eins und 1:2"; "Hello, you"])
        as (rs & Hrs & _ & Hun).
      * reflexivity.
      * vm_compute. reflexivity.
      * repeat constructor.
      * now exists rs.
Defined.

(** X19: escaping hides no separator from [split]: for a comma, a
    semicolon or an equals sign [c], splitting an escaped value on [c]
    gives one piece more than the value holds occurrences of [c].  So the
    splits of [batch] cut through the escaped values that hold one. *)
Theorem X19_escaping_keeps_separators (c : ascii) (v : string) :
  is_sep c = true ->
  List.length (split_char c (escapearg v))
  = S (count_chars (fun d => Ascii.eqb d c) v).
Proof.
  intros Hc. rewrite escapearg_encode.
  assert (Hcolon : Ascii.eqb ":" c = false).
  { destruct (Ascii.eqb_spec ":" c) as [<-|]; [discriminate | reflexivity]. }
  induction v as [|d v IH]; [reflexivity|].
  rewrite encode_cons. unfold enc. simpl count_chars.
  destruct (Ascii.eqb_spec d ":") as [->|Hd].
  - change ("::" +:+ encode sp3 v) with (String ":" (String ":" (encode sp3 v))).
    rewrite !split_char_cons_length, Hcolon, IH. reflexivity.
  - rewrite sp3_is_sep. destruct (is_sep d) eqn:Hsep.
    + change (String ":" (String d "") +:+ encode sp3 v)
        with (String ":" (String d (encode sp3 v))).
      rewrite !split_char_cons_length, Hcolon, IH.
      destruct (Ascii.eqb d c); reflexivity.
    + change (String d "" +:+ encode sp3 v) with (String d (encode sp3 v)).
      rewrite split_char_cons_length, IH.
      destruct (Ascii.eqb_spec d c) as [->|]; [congruence | reflexivity].
Qed.

Lemma X19_witness :
  List.length (split_char ";" (escapearg "a;b")) = 2.
Proof. exact (X19_escaping_keeps_separators ";" "a;b" eq_refl). Defined.

End BatchWireFacts.

(** ** Pushing a payload *)

Module SshPushFacts.
Import PyStr SshPeer SshSpec SshPush PyStrFacts SshFacts.

Lemma stake_sdrop n (s : string) : stake n s +:+ sdrop n s = s.
Proof.
  revert s. induction n as [|n IH]; intros [|c s]; simpl; try reflexivity.
  now rewrite IH.
Qed.

Lemma sdrop_length n (s : string) :
  String.length (sdrop n s) = String.length s - n.
Proof.
  revert s. induction n as [|n IH]; intros [|c s]; simpl; try reflexivity.
  apply IH.
Qed.

Lemma stake_length n (s : string) : String.length (stake n s) <= n.
Proof.
  revert s. induction n as [|n IH]; intros [|c s]; simpl; try lia.
  specialize (IH s). lia.
Qed.

Lemma stake_truthy n (s : string) : truthy (stake (S n) s) = truthy s.
Proof. now destruct s. Qed.

Lemma chunksize_pos : exists k, chunksize = S k.
Proof. now exists 4095. Qed.

Lemma chunks_S k (s : string) :
  chunks (S k) s
  = if truthy (stake chunksize s)
    then stake chunksize s :: chunks k (sdrop chunksize s) else [].
Proof. reflexivity. Qed.

Lemma sendpayload_S self k (s : string) :
  sendpayload self (S k) s
  = if truthy (stake chunksize s)
    then bind (sshv1peer._writeframed self (stake chunksize s) false)
              (fun _ => sendpayload self k (sdrop chunksize s))
    else ret tt.
Proof. reflexivity. Qed.

Lemma chunks_join fuel : forall s : string,
  String.length s < fuel -> join (chunks fuel s) = s.
Proof.
  destruct chunksize_pos as (k & Hk).
  induction fuel as [|fuel IH]; intros s Hlen; [lia|].
  rewrite chunks_S, Hk, stake_truthy.
  destruct s as [|c s]; [reflexivity|]. simpl truthy. cbv iota.
  change (join (?d :: ?r)) with (d +:+ join r).
  rewrite IH; [apply stake_sdrop|].
  rewrite sdrop_length. simpl in *. lia.
Qed.

Lemma chunks_bounds fuel : forall s : string,
  Forall (fun d => d <> "" /\ String.length d <= chunksize) (chunks fuel s).
Proof.
  induction fuel as [|fuel IH]; intros s; [constructor|].
  rewrite chunks_S. destruct (truthy (stake chunksize s)) eqn:Hd;
    constructor; [|apply IH].
  split; [|apply stake_length].
  intros Hempty. now rewrite Hempty in Hd.
Qed.

Lemma frames_cons d l : frames (d :: l) = frame d +:+ frames l.
Proof. reflexivity. Qed.

Lemma can_io_le self n m w : m <= n -> can_io self n w -> can_io self m w.
Proof. unfold can_io. intros Hle Hio Ha. specialize (Hio Ha). lia. Qed.

Lemma flush_step (self : peer) (flush : bool) (w : world) :
  closed (stdin w) = false ->
  exists w',
    (if flush then sshv1peer.pipeo_flush self else ret tt) w = Ret tt w'
    /\ written (stdin w') = written (stdin w)
    /\ closed (stdin w') = false
    /\ broken (stdin w') = broken (stdin w)
    /\ stdout w' = stdout w
    /\ waits w' = waits w.
Proof.
  intros Hc. destruct flush; [|exists w; now repeat split].
  unfold sshv1peer.pipeo_flush, doublepipe.flush, fflush, on_pipe, file_flush.
  simpl. destruct (_autoreadstderr self); rewrite Hc;
    eexists; (split; [reflexivity|]); simpl; now repeat split.
Qed.

Lemma readerr_frame (self : peer) (w : world) :
  let w' := if _autoreadstderr self then forwarded Stderr w else w in
  stdin w' = stdin w /\ stdout w' = stdout w /\ waits w' = waits w.
Proof.
  destruct (_autoreadstderr self); [|now repeat split].
  split; [|split].
  - apply (forwarded_other Stderr Stdin). discriminate.
  - apply (forwarded_other Stderr Stdout). discriminate.
  - apply forwarded_waits.
Qed.

Lemma writeframed_step (self : peer) (b : string) (flush : bool) (n : nat)
    (w : world) :
  closed (stdin w) = false -> broken (stdin w) = false ->
  can_io self (2 + n) w ->
  exists w',
    sshv1peer._writeframed self b flush w = Ret tt w'
    /\ written (stdin w') = written (stdin w) +:+ frame b
    /\ closed (stdin w') = false /\ broken (stdin w') = false
    /\ stdout w' = stdout w
    /\ can_io self n w'.
Proof.
  intros Hc Hb Hio. unfold sshv1peer._writeframed, bind.
  destruct (pipeo_write_ok self
              (fmt_d (Z.of_nat (String.length b)) +:+ nl) (1 + n) w)
    as (w1 & -> & Hw1 & Hc1 & Hb1 & Ho1 & Hio1); try assumption.
  { pose proof (fmt_d_nonempty (Z.of_nat (String.length b))).
    destruct (fmt_d (Z.of_nat (String.length b))); [congruence | discriminate]. }
  assert (Hdata : exists w2,
            (if truthy b then sshv1peer.pipeo_write self b else ret tt) w1
            = Ret tt w2
            /\ written (stdin w2) = written (stdin w) +:+ frame b
            /\ closed (stdin w2) = false /\ broken (stdin w2) = false
            /\ stdout w2 = stdout w
            /\ can_io self n w2).
  { destruct b as [|c b'] eqn:Eb.
    - exists w1. split; [reflexivity|].
      split; [rewrite Hw1; unfold frame; now rewrite app_nil_r_s|].
      repeat split; try assumption.
      apply (can_io_le self (1 + n)); [lia | assumption].
    - simpl truthy. cbv iota.
      destruct (pipeo_write_ok self (String c b') n w1)
        as (w2 & Hrun2 & Hw2 & Hc2 & Hb2 & Ho2 & Hio2); try assumption;
        [discriminate|].
      exists w2. split; [exact Hrun2|].
      split; [rewrite Hw2, Hw1; unfold frame; now rewrite !app_assoc_s|].
      repeat split; try assumption. congruence. }
  destruct Hdata as (w2 & -> & Hw2 & Hc2 & Hb2 & Ho2 & Hio2).
  destruct (flush_step self flush w2 Hc2)
    as (w3 & -> & Hw3 & Hc3 & Hb3 & Ho3 & Hwaits3).
  rewrite readerr_step. eexists. split; [reflexivity|].
  destruct (readerr_frame self w3) as (Hin & Hout & Hwaits).
  rewrite Hin, Hout.
  repeat split; try congruence.
  unfold can_io in *. rewrite Hwaits, Hwaits3. exact Hio2.
Qed.

Lemma pipei_readline_step (self : peer) (s rest : string) (n : nat)
    (w : world) :
  closed (stdout w) = false -> all_chars not_nl s = true ->
  data (stdout w) = s +:+ nl +:+ rest ->
  can_io self (S n) w ->
  exists w',
    sshv1peer.pipei_readline self w = Ret (s +:+ nl) w'
    /\ data (stdout w') = rest /\ closed (stdout w') = false
    /\ stdin w' = stdin w
    /\ can_io self n w'.
Proof.
  intros Hc Hs Hd Hio. unfold sshv1peer.pipei_readline, can_io in *.
  destruct (_autoreadstderr self).
  - destruct (call_blocking Stdout Stderr doublepipe.Mreadline w)
      as (w1 & Hrun & Hoth & Hcount); try easy.
    { specialize (Hio eq_refl). lia. }
    unfold doublepipe.readline, bind. rewrite Hrun. simpl.
    unfold bind, freadline, on_pipe. simpl.
    pose proof (Hoth Stdout ltac:(discriminate)) as Hout.
    pose proof (Hoth Stdin ltac:(discriminate)) as Hin.
    simpl in Hout, Hin.
    destruct (file_readline_ok s rest (stdout w1))
      as (p' & -> & Hd' & Hc' & Hcalls); [congruence .. |].
    eexists. split; [reflexivity|]. simpl.
    repeat split; try assumption.
    intros _. specialize (Hio eq_refl). lia.
  - unfold freadline, on_pipe. simpl.
    destruct (file_readline_ok s rest (stdout w))
      as (p' & -> & Hd' & Hc' & Hcalls); [assumption .. |].
    eexists. split; [reflexivity|]. simpl.
    repeat split; try assumption. discriminate.
Qed.

Lemma pipei_read_step (self : peer) (b rest : string) (n : nat) (w : world) :
  b <> "" -> closed (stdout w) = false ->
  data (stdout w) = b +:+ rest ->
  can_io self (S n) w ->
  exists w',
    sshv1peer.pipei_read self (Z.of_nat (String.length b)) w = Ret b w'
    /\ data (stdout w') = rest /\ closed (stdout w') = false
    /\ stdin w' = stdin w
    /\ can_io self n w'.
Proof.
  intros Hb Hc Hd Hio. unfold sshv1peer.pipei_read, can_io in *.
  assert (Hsize : (Z.of_nat (String.length b) =? 0)%Z = false).
  { apply Z.eqb_neq. destruct b; [congruence | simpl; lia]. }
  destruct (_autoreadstderr self).
  - destruct (call_blocking Stdout Stderr
                (doublepipe.Mread (Z.of_nat (String.length b))) w)
      as (w1 & Hrun & Hoth & Hcount); try easy.
    { specialize (Hio eq_refl). lia. }
    unfold doublepipe.read, bind. rewrite Hrun. simpl.
    unfold bind, fread, on_pipe. simpl.
    pose proof (Hoth Stdout ltac:(discriminate)) as Hout.
    pose proof (Hoth Stdin ltac:(discriminate)) as Hin.
    simpl in Hout, Hin.
    destruct (file_read_ok b rest (stdout w1))
      as (p' & -> & Hd' & Hc' & Hcalls); [congruence .. |].
    simpl. rewrite Hsize. simpl.
    assert (negb (truthy b) = false) as -> by (now destruct b).
    simpl. eexists. split; [reflexivity|]. simpl.
    repeat split; try assumption.
    intros _. specialize (Hio eq_refl). lia.
  - unfold fread, on_pipe. simpl.
    destruct (file_read_ok b rest (stdout w))
      as (p' & -> & Hd' & Hc' & Hcalls); [assumption .. |].
    eexists. split; [reflexivity|]. simpl.
    repeat split; try assumption. discriminate.
Qed.

Lemma getamount_step (self : peer) (z : Z) (rest : string) (n : nat)
    (w : world) :
  closed (stdout w) = false ->
  data (stdout w) = fmt_d z +:+ nl +:+ rest ->
  can_io self (S n) w ->
  exists w',
    sshv1peer._getamount self w = Ret z w'
    /\ data (stdout w') = rest /\ closed (stdout w') = false
    /\ stdin w' = stdin w
    /\ can_io self n w'.
Proof.
  intros Hc Hd Hio. unfold sshv1peer._getamount, bind.
  destruct (pipei_readline_step self (fmt_d z) rest n w)
    as (w1 & -> & Hd1 & Hc1 & Hin1 & Hio1); try assumption.
  { apply fmt_d_no_nl. }
  assert (String.eqb (fmt_d z +:+ nl) nl = false) as ->.
  { apply String.eqb_neq. pose proof (fmt_d_nonempty z).
    destruct (fmt_d z) as [|c [|d r]]; [congruence | discriminate ..]. }
  simpl. rewrite readerr_step, pyint_fmt_d.
  eexists. split; [reflexivity|].
  destruct (readerr_frame self w1) as (Hin & Hout & Hwaits).
  rewrite Hin, Hout. repeat split; try assumption.
  unfold can_io in *. now rewrite Hwaits.
Qed.

Lemma readframed_step (self : peer) (b rest : string) (n : nat) (w : world) :
  closed (stdout w) = false ->
  data (stdout w) = frame b +:+ rest ->
  can_io self (2 + n) w ->
  exists w',
    sshv1peer._readframed self w = Ret b w'
    /\ data (stdout w') = rest /\ closed (stdout w') = false
    /\ stdin w' = stdin w
    /\ can_io self n w'.
Proof.
  intros Hc Hd Hio. unfold sshv1peer._readframed, bind.
  destruct (getamount_step self (Z.of_nat (String.length b)) (b +:+ rest)
              (1 + n) w)
    as (w1 & -> & Hd1 & Hc1 & Hin1 & Hio1); try assumption.
  { rewrite Hd. unfold frame. now rewrite !app_assoc_s. }
  destruct b as [|c b'] eqn:Eb.
  - simpl. exists w1. repeat split; try assumption.
    apply (can_io_le self (1 + n)); [lia | assumption].
  - assert ((Z.of_nat (String.length (String c b')) =? 0)%Z = false) as ->
      by (apply Z.eqb_neq; simpl; lia).
    destruct (pipei_read_step self (String c b') rest n w1)
      as (w2 & -> & Hd2 & Hc2 & Hin2 & Hio2); try assumption; [discriminate|].
    exists w2. repeat split; try assumption. congruence.
Qed.

Section Push.
Variable _call : peer -> string -> gmap string string -> M string.

Lemma sendpayload_ok (self : peer) (n : nat) (fuel : nat) :
  forall (s : string) (w : world),
    closed (stdin w) = false -> broken (stdin w) = false ->
    can_io self (2 * List.length (chunks fuel s) + n) w ->
    exists w',
      sendpayload self fuel s w = Ret tt w'
      /\ written (stdin w') = written (stdin w) +:+ frames (chunks fuel s)
      /\ closed (stdin w') = false /\ broken (stdin w') = false
      /\ stdout w' = stdout w
      /\ can_io self n w'.
Proof.
  induction fuel as [|fuel IH]; intros s w Hc Hb Hio.
  - exists w. split; [reflexivity|]. repeat split; try assumption.
    simpl. now rewrite app_nil_r_s.
  - rewrite sendpayload_S. rewrite chunks_S in *.
    destruct (truthy (stake chunksize s)).
    + cbn [List.length] in Hio.
      destruct (writeframed_step self (stake chunksize s) false
                  (2 * List.length (chunks fuel (sdrop chunksize s)) + n) w)
        as (w1 & Hrun1 & Hw1 & Hc1 & Hb1 & Ho1 & Hio1); try assumption.
      { eapply can_io_le; [|exact Hio]. lia. }
      destruct (IH (sdrop chunksize s) w1 Hc1 Hb1 Hio1)
        as (w2 & Hrun2 & Hw2 & Hc2 & Hb2 & Ho2 & Hio2).
      exists w2. unfold bind. rewrite Hrun1, Hrun2.
      split; [reflexivity|]. repeat split; try assumption; [|congruence].
      now rewrite Hw2, Hw1, frames_cons, app_assoc_s.
    + exists w. split; [reflexivity|]. repeat split; try assumption.
      simpl. now rewrite app_nil_r_s.
Qed.

(** X20: [_callpush] sends no payload when the call is answered with a
    non-empty string, which it returns as the error.  When the answer is
    empty, it writes the payload as frames of 1 to 4096 bytes whose
    contents, put together, are the payload, then an empty frame; it then
    returns a non-empty first frame of the answer as the error, or after
    an empty first frame the contents of the second as the result, and
    leaves unread what follows. *)
Theorem X20_callpush
    (self : peer) (cmd fp : string) (args : gmap string string)
    (w w1 : world) (reply : string)
    (Hcall : _call self cmd args w = Ret reply w1) :
  (reply <> "" -> _callpush _call self cmd fp args w = Ret ("", reply) w1)
  /\ (reply = "" ->
      closed (stdin w1) = false -> broken (stdin w1) = false ->
      closed (stdout w1) = false ->
      can_io self (2 * List.length (payload_chunks fp) + 6) w1 ->
      join (payload_chunks fp) = fp
      /\ Forall (fun d => d <> "" /\ String.length d <= 4096)
                (payload_chunks fp)
      /\ (forall err rest,
            err <> "" ->
            data (stdout w1) = frame err +:+ rest ->
            exists w',
              _callpush _call self cmd fp args w = Ret ("", err) w'
              /\ written (stdin w')
                 = written (stdin w1) +:+ frames (payload_chunks fp)
                   +:+ frame ""
              /\ data (stdout w') = rest)
      /\ (forall result rest,
            data (stdout w1) = frame "" +:+ frame result +:+ rest ->
            exists w',
              _callpush _call self cmd fp args w = Ret (result, "") w'
              /\ written (stdin w')
                 = written (stdin w1) +:+ frames (payload_chunks fp)
                   +:+ frame ""
              /\ data (stdout w') = rest)).
Proof.
  split.
  - intros Hreply. unfold _callpush, bind. rewrite Hcall.
    destruct reply; [congruence | reflexivity].
  - intros -> Hc Hb Hco Hio.
    split; [apply chunks_join; lia|].
    split; [apply chunks_bounds|].
    destruct (sendpayload_ok self 6 (S (String.length fp)) fp w1 Hc Hb Hio)
      as (w2 & Hrun2 & Hw2 & Hc2 & Hb2 & Ho2 & Hio2).
    destruct (writeframed_step self "" true 4 w2 Hc2 Hb2 Hio2)
      as (w3 & Hrun3 & Hw3 & Hc3 & Hb3 & Ho3 & Hio3).
    assert (Hwritten : written (stdin w3)
                       = written (stdin w1) +:+ frames (payload_chunks fp)
                         +:+ frame "").
    { rewrite Hw3, Hw2. now rewrite app_assoc_s. }
    assert (Hin : forall r w4,
              sshv1peer._readframed self w3 = Ret r w4 ->
              _callpush _call self cmd fp args w
              = (if truthy r then ret ("", r)
                 else bind (sshv1peer._readframed self)
                           (fun r2 => ret (r2, ""))) w4).
    { intros r w4 Hr. unfold _callpush. unfold bind at 1. rewrite Hcall.
      change (truthy "") with false. cbv iota.
      unfold bind at 1. rewrite Hrun2.
      unfold bind at 1. rewrite Hrun3.
      unfold bind at 1. rewrite Hr. reflexivity. }
    split.
    + intros err rest Herr Hd.
      destruct (readframed_step self err rest 2 w3)
        as (w4 & Hrun4 & Hd4 & Hc4 & Hin4 & Hio4);
        [congruence | congruence | exact Hio3 |].
      exists w4. rewrite (Hin _ _ Hrun4).
      destruct err; [congruence|].
      split; [reflexivity|]. split; [|assumption]. now rewrite Hin4.
    + intros result rest Hd.
      destruct (readframed_step self "" (frame result +:+ rest) 2 w3)
        as (w4 & Hrun4 & Hd4 & Hc4 & Hin4 & Hio4);
        [congruence | congruence | exact Hio3 |].
      destruct (readframed_step self result rest 0 w4)
        as (w5 & Hrun5 & Hd5 & Hc5 & Hin5 & Hio5); try assumption.
      exists w5. rewrite (Hin _ _ Hrun4).
      change (truthy "") with false. cbv iota.
      unfold bind. rewrite Hrun5.
      split; [reflexivity|]. split; [|assumption]. now rewrite Hin5, Hin4.
Qed.

End Push.

Lemma X20_witness :
  exists w',
    _callpush Examples.noargcall Examples.plainpeer "unbundle" "changes" ∅
      Examples.pushworld
    = Ret ("1", "") w'
    /\ written (stdin w')
       = "unbundle" +:+ nl +:+ "7" +:+ nl +:+ "changes" +:+ "0" +:+ nl
    /\ data (stdout w') = "".
Proof.
  pose (w1 := match Examples.noargcall Examples.plainpeer "unbundle" ∅
                      Examples.pushworld with
              | Ret _ w1 => w1
              | _ => Examples.pushworld
              end).
  assert (Hcall : Examples.noargcall Examples.plainpeer "unbundle" ∅
                    Examples.pushworld = Ret "" w1) by reflexivity.
  destruct (X20_callpush Examples.noargcall Examples.plainpeer "unbundle"
              "changes" ∅ Examples.pushworld w1 "" Hcall) as [_ Hpush].
  destruct Hpush as (_ & _ & _ & Hok); try reflexivity.
  { intros Hauto. discriminate Hauto. }
  destruct (Hok "1" "") as (w' & Hrun & Hw & Hd); [reflexivity|].
  exists w'. split; [exact Hrun|]. split; [|exact Hd].
  rewrite Hw. reflexivity.
Defined.

End SshPushFacts.
